(** * chatbag: the client-side message and typing hooks

    A shallow embedding of [src/hooks/useMessages.ts], [src/hooks/useTyping.ts]
    and of the retry handler of the chat view, with the properties of the
    optimistic send / reconcile protocol stated over it.

    React state is modelled by explicit state passing: every [setMessages]
    call of the source passes a functional updater [prev => ...], which is a
    pure function on the message list; an asynchronous function is split at
    its [await] into the part that runs at the call and the continuations
    that run when the request is answered.  Requests sent to the backing
    service and timers handed to [setTimeout] are recorded in an outbox. *)

From Stdlib Require Import String Ascii List Bool ZArith Lia.
Import ListNotations.
Open Scope string_scope.
Open Scope list_scope.

(** ** JavaScript string primitives used by the hooks *)

Module JS.

(** [s.startsWith(p)] *)
Definition startsWith (s p : string) : bool := String.prefix p s.

(** [s.includes(needle)] *)
Fixpoint includes (s needle : string) : bool :=
  String.prefix needle s
  || match s with
     | EmptyString => false
     | String _ s' => includes s' needle
     end.

(** A string from the values of its bytes. *)
Definition bytes (l : list nat) : string :=
  string_of_list_ascii (map ascii_of_nat l).

(** The white space and line terminator code points that [trim] removes,
    in the UTF-8 encoding the strings of this development are in: U+0009 to
    U+000D, U+0020, U+00A0, U+1680, U+2000 to U+200A, U+2028, U+2029,
    U+202F, U+205F, U+3000 and U+FEFF. *)
Definition white_space : list string :=
  map bytes
    [ [9]; [10]; [11]; [12]; [13]; [32]; [194; 160]; [225; 154; 128];
      [226; 128; 128]; [226; 128; 129]; [226; 128; 130]; [226; 128; 131];
      [226; 128; 132]; [226; 128; 133]; [226; 128; 134]; [226; 128; 135];
      [226; 128; 136]; [226; 128; 137]; [226; 128; 138]; [226; 128; 168];
      [226; 128; 169]; [226; 128; 175]; [226; 129; 159]; [227; 128; 128];
      [239; 187; 191] ].

(** The first [n] characters removed. *)
Fixpoint drop (n : nat) (s : string) : string :=
  match n, s with
  | O, _ => s
  | S n', String _ s' => drop n' s'
  | S _, EmptyString => EmptyString
  end.

(** One leading character of [spaces] removed, if there is one. *)
Fixpoint strip_one (spaces : list string) (s : string) : option string :=
  match spaces with
  | [] => None
  | sp :: rest =>
      if String.prefix sp s then Some (drop (String.length sp) s)
      else strip_one rest s
  end.

(** Leading characters of [spaces] removed; [n] bounds their number. *)
Fixpoint strip_leading (spaces : list string) (n : nat) (s : string) : string :=
  match n with
  | O => s
  | S n' =>
      match strip_one spaces s with
      | Some s' => strip_leading spaces n' s'
      | None => s
      end
  end.

Definition reverse (s : string) : string :=
  string_of_list_ascii (rev (list_ascii_of_string s)).

Definition trimStart (s : string) : string :=
  strip_leading white_space (String.length s) s.

Definition trimEnd (s : string) : string :=
  reverse
    (strip_leading (map reverse white_space) (String.length s) (reverse s)).

(** [s.trim()] *)
Definition trim (s : string) : string := trimEnd (trimStart s).

(** Truthiness of a string: the empty string is falsy. *)
Definition truthy (s : string) : bool := negb (s =? EmptyString).

(** [a || d] where [a] may be [undefined] (optional chaining on a null
    profile) or the empty string. *)
Definition or_else (a : option string) (d : string) : string :=
  match a with
  | Some s => if truthy s then s else d
  | None => d
  end.

(** [s.replace(/^(p1|p2)/, '')]: an anchored alternation, replaced once. *)
Definition replace_leading (p1 p2 s : string) : string :=
  if startsWith s p1 then drop (String.length p1) s
  else if startsWith s p2 then drop (String.length p2) s
  else s.

End JS.

(** ** Data model ([src/lib/supabase.ts]) *)

Inductive MessageType := text | image | ai.
Inductive Mood := happy | sad | angry | anxious | neutral.

Module User.
Record t := mk {
  id : string;
  email : string;
  name : string;
  username : string;
  avatar_url : string;
  status_message : string;
  last_active : string;
  created_at : string
}.
End User.

(** The authenticated principal handed out by [useAuth]. *)
Module Auth.
Record user := mk { id : string; email : option string }.
End Auth.

(** A message of the visible list.  [chat_id] is optional because the rows
    read back from the service are projected on
    [id, content, created_at, sender_id, type, mood]; only the optimistic
    message built by [sendMessage] carries it.  [sender] is the
    denormalised sender summary ([sender?: User]). *)
Record Message := mkMessage {
  id : string;
  chat_id : option string;
  sender_id : string;
  content : string;
  type : MessageType;
  mood : Mood;
  created_at : string;
  sender : option User.t
}.

(** A row as returned by
    [.select('id, content, created_at, sender_id, type, mood')]. *)
Module MessageRow.
Record t := mk {
  id : string;
  content : string;
  created_at : string;
  sender_id : string;
  type : MessageType;
  mood : Mood
}.
End MessageRow.

(** [{ ...data, sender }] *)
Definition with_sender (data : MessageRow.t) (s : option User.t) : Message :=
  {| id := MessageRow.id data;
     chat_id := None;
     sender_id := MessageRow.sender_id data;
     content := MessageRow.content data;
     type := MessageRow.type data;
     mood := MessageRow.mood data;
     created_at := MessageRow.created_at data;
     sender := s |}.

(** The error caught by the [catch] blocks: a rejected promise carries a
    JavaScript [Error] (message only) or the error object of the service. *)
Record JsError := mkError { message : option string; code : option string }.

(** What an awaited request produces. *)
Inductive Reply (A : Type) :=
| Resolved (data : A)
| Rejected (error : JsError).
Arguments Resolved {A} data.
Arguments Rejected {A} error.

(** Body of the insert issued by [sendMessage] and [retryMessage]. *)
Record NewMessage := mkNew {
  new_chat_id : string;
  new_sender_id : string;
  new_content : string;
  new_type : MessageType;
  new_mood : Mood
}.

(** Arguments of the [retryMessage] call captured by the retry timer. *)
Record RetryArgs := mkRetry {
  retry_content : string;
  retry_type : MessageType;
  retry_mood : Mood;
  originalOptimisticId : string
}.

Inductive Effect :=
| CreateRequest (body : NewMessage)
| SetTimeout (ms : Z) (k : RetryArgs)
| QueryMessages (chat : string) (limit : nat).

(** The hook: its [messages] state and what it has sent out so far. *)
Record Hook := mkHook {
  messages : list Message;
  outbox : list Effect
}.

Definition setMessages (f : list Message -> list Message) (h : Hook) : Hook :=
  {| messages := f (messages h); outbox := outbox h |}.

Definition emit (e : Effect) (h : Hook) : Hook :=
  {| messages := messages h; outbox := outbox h ++ [e] |}.

(** What the closures of one render capture. *)
Record Env := mkEnv {
  chatId : option string;
  user : option Auth.user;
  profile : option User.t
}.

(** [!chatId]: null and the empty string are both falsy. *)
Definition open_chat (env : Env) : option string :=
  match chatId env with
  | Some c => if JS.truthy c then Some c else None
  | None => None
  end.

(** ** [useMessages]: the list updaters *)

(** The sender summary built from the session for the user's own
    messages; [last_active] and the fallback of [created_at] are clock
    readings. *)
Definition own_sender (u : Auth.user) (p : option User.t)
    (last_active created_fallback : string) : User.t :=
  {| User.id := Auth.id u;
     User.email := JS.or_else (Auth.email u) EmptyString;
     User.name := JS.or_else (option_map User.name p) "You";
     User.username := JS.or_else (option_map User.username p) EmptyString;
     User.avatar_url :=
       JS.or_else (option_map User.avatar_url p)
         ("https://api.dicebear.com/7.x/avataaars/svg?seed=" ++ Auth.id u);
     User.status_message :=
       JS.or_else (option_map User.status_message p) EmptyString;
     User.last_active := last_active;
     User.created_at :=
       JS.or_else (option_map User.created_at p) created_fallback |}.

(** [`temp-${Date.now()}-${Math.random()}`], from the decimal renderings of
    the clock and of the random number. *)
Definition temp_id (date_now random : string) : string :=
  "temp-" ++ date_now ++ "-" ++ random.

Definition failed_id (optimisticId : string) : string :=
  "failed-" ++ optimisticId.

Definition optimisticMessage (c : string) (u : Auth.user) (p : option User.t)
    (optimisticId trimmedContent : string) (ty : MessageType) (md : Mood)
    (now : string) : Message :=
  {| id := optimisticId;
     chat_id := Some c;
     sender_id := Auth.id u;
     content := trimmedContent;
     type := ty;
     mood := md;
     created_at := now;
     sender := Some (own_sender u p now now) |}.

(** [prev => [...prev, optimisticMessage]] *)
Definition append_message (m : Message) (prev : list Message) : list Message :=
  prev ++ [m].

(** [prev => prev.map(msg => msg.id === target ? m : msg)] *)
Definition replace_by_id (target : string) (m : Message) (prev : list Message)
  : list Message :=
  map (fun msg => if id msg =? target then m else msg) prev.

(** The failure re-tagging of [sendMessage]'s [catch]. *)
Definition as_failed (optimisticId trimmedContent : string) (msg : Message)
  : Message :=
  {| id := failed_id optimisticId;
     chat_id := chat_id msg;
     sender_id := sender_id msg;
     content := "❌ Failed to send: " ++ trimmedContent;
     type := text;
     mood := mood msg;
     created_at := created_at msg;
     sender := sender msg |}.

Definition mark_failed (optimisticId trimmedContent : string)
    (prev : list Message) : list Message :=
  map (fun msg =>
         if id msg =? optimisticId
         then as_failed optimisticId trimmedContent msg
         else msg) prev.

(** [{ ...msg, content }] *)
Definition set_content (c : string) (msg : Message) : Message :=
  {| id := id msg;
     chat_id := chat_id msg;
     sender_id := sender_id msg;
     content := c;
     type := type msg;
     mood := mood msg;
     created_at := created_at msg;
     sender := sender msg |}.

Definition mark_retrying (failedId c : string) (prev : list Message)
  : list Message :=
  map (fun msg =>
         if id msg =? failedId then set_content ("🔄 Retrying: " ++ c) msg
         else msg) prev.

Definition mark_permanent (failedId c : string) (prev : list Message)
  : list Message :=
  map (fun msg =>
         if id msg =? failedId
         then set_content ("💀 Failed permanently: " ++ c) msg
         else msg) prev.

(** The realtime INSERT merge of [subscribeToMessages]. *)
Definition is_optimistic_twin (messageWithSender msg : Message) : bool :=
  JS.startsWith (id msg) "temp-"
  && (content msg =? content messageWithSender)
  && (sender_id msg =? sender_id messageWithSender).

Definition merge_insert (messageWithSender : Message) (prev : list Message)
  : list Message :=
  let filteredPrev :=
    filter (fun msg => negb (is_optimistic_twin messageWithSender msg)) prev in
  let exists_ :=
    existsb (fun msg => id msg =? id messageWithSender) filteredPrev in
  if exists_ then filteredPrev else filteredPrev ++ [messageWithSender].

(** ** [sendMessage] and [retryMessage] *)

(** [error.message?.includes('timeout')] *)
Definition mentions_timeout (error : JsError) : bool :=
  match message error with
  | Some m => JS.includes m "timeout"
  | None => false
  end.

(** [sendMessage], up to its [await]. *)
Definition sendMessage (env : Env) (c0 : string) (ty : MessageType) (md : Mood)
    (date_now random now : string) (h : Hook) : Hook :=
  match open_chat env, user env with
  | Some c, Some u =>
      if JS.truthy (JS.trim c0) then
        let trimmedContent := JS.trim c0 in
        let optimisticId := temp_id date_now random in
        let h1 :=
          setMessages
            (append_message
               (optimisticMessage c u (profile env) optimisticId trimmedContent
                  ty md now)) h in
        emit (CreateRequest
                {| new_chat_id := c;
                   new_sender_id := Auth.id u;
                   new_content := trimmedContent;
                   new_type := ty;
                   new_mood := md |}) h1
      else h
  | _, _ => h
  end.

(** [sendMessage], from the answer of the create request (or the 30 s
    timer of the race) on: [t1] and [t2] are the clock readings of the
    success branch. *)
Definition sendMessage_settled (u : Auth.user) (p : option User.t)
    (trimmedContent : string) (ty : MessageType) (md : Mood)
    (optimisticId : string) (t1 t2 : string) (r : Reply MessageRow.t) (h : Hook)
  : Hook :=
  match r with
  | Resolved data =>
      setMessages
        (replace_by_id optimisticId
           (with_sender data (Some (own_sender u p t1 t2)))) h
  | Rejected error =>
      let h1 := setMessages (mark_failed optimisticId trimmedContent) h in
      if mentions_timeout error then
        emit (SetTimeout 2000
                {| retry_content := trimmedContent;
                   retry_type := ty;
                   retry_mood := md;
                   originalOptimisticId := optimisticId |}) h1
      else h1
  end.

(** [retryMessage], up to its [await]. *)
Definition retryMessage (env : Env) (a : RetryArgs) (h : Hook) : Hook :=
  match open_chat env, user env with
  | Some c, Some u =>
      let failedId := failed_id (originalOptimisticId a) in
      let h1 := setMessages (mark_retrying failedId (retry_content a)) h in
      emit (CreateRequest
              {| new_chat_id := c;
                 new_sender_id := Auth.id u;
                 new_content := retry_content a;
                 new_type := retry_type a;
                 new_mood := retry_mood a |}) h1
  | _, _ => h
  end.

(** [retryMessage], from the answer of its create request on. *)
Definition retryMessage_settled (u : Auth.user) (p : option User.t)
    (a : RetryArgs) (t1 t2 : string) (r : Reply MessageRow.t) (h : Hook) : Hook :=
  let failedId := failed_id (originalOptimisticId a) in
  match r with
  | Resolved data =>
      setMessages
        (replace_by_id failedId
           (with_sender data (Some (own_sender u p t1 t2)))) h
  | Rejected _ =>
      setMessages (mark_permanent failedId (retry_content a)) h
  end.

(** The realtime INSERT handler, once the row and its sender were read
    back: [sender] is what the [users] query returned. *)
Definition subscribeToMessages_insert (data : MessageRow.t)
    (sender : option User.t) (h : Hook) : Hook :=
  setMessages (merge_insert (with_sender data sender)) h.

(** ** The retry affordance of the chat view ([handleRetryMessage]) *)

(** The arguments of the [sendMessage] call the handler ends with, or
    [None] when its guard returns early. *)
Definition handleRetryMessage (m : Message)
  : option (string * MessageType * Mood) :=
  if negb (JS.startsWith (id m) "failed-")
     || negb (JS.includes (content m) "Failed to send:")
  then None
  else
    let originalContent :=
      JS.replace_leading "Failed to send: " "Failed permanently: " (content m) in
    Some (originalContent, type m, mood m).

(** The handler run against the hook. *)
Definition tap_to_retry (env : Env) (m : Message) (date_now random now : string)
    (h : Hook) : Hook :=
  match handleRetryMessage m with
  | Some (c, ty, md) => sendMessage env c ty md date_now random now h
  | None => h
  end.

(** ** Observations on the visible list *)

Definition ids (l : list Message) : list string := map id l.

Definition has_id (i : string) (l : list Message) : bool :=
  existsb (fun msg => id msg =? i) l.


(** Timers an outbox holds. *)
Fixpoint scheduled (o : list Effect) : list (Z * RetryArgs) :=
  match o with
  | [] => []
  | SetTimeout ms k :: o' => (ms, k) :: scheduled o'
  | _ :: o' => scheduled o'
  end.

(** Create requests an outbox holds. *)
Fixpoint created (o : list Effect) : list NewMessage :=
  match o with
  | [] => []
  | CreateRequest b :: o' => b :: created o'
  | _ :: o' => created o'
  end.

(** ** Loading a conversation: the effect of [useMessages] and [fetchMessages]

    The [loading] flag is not modelled; none of the properties below reads
    it. *)

(** [senders?.find(sender => sender.id === msg.sender_id)] *)
Definition find_sender (senders : option (list User.t)) (sid : string)
  : option User.t :=
  match senders with
  | Some l => find (fun s => User.id s =? sid) l
  | None => None
  end.

Definition messagesWithSenders (senders : option (list User.t))
    (data : list MessageRow.t) : list Message :=
  map (fun msg => with_sender msg (find_sender senders (MessageRow.sender_id msg)))
    data.

(** What both branches of [data && data.length > 0] hand to [setMessages]. *)
Definition chronological (senders : option (list User.t)) (data : list MessageRow.t)
  : list Message :=
  match data with
  | [] => []
  | _ => rev (messagesWithSenders senders data)
  end.


(** [fetchMessages], from the answer of the query on; [c] is the [chatId]
    the closure captured.  An error mentioning a timeout (or code 57014)
    issues the simpler query. *)
Definition fetchMessages_settled (c : string) (r : Reply (list MessageRow.t))
    (senders : option (list User.t)) (h : Hook) : Hook :=
  match r with
  | Resolved data => setMessages (fun _ => chronological senders data) h
  | Rejected error =>
      if mentions_timeout error
         || match code error with Some k => k =? "57014" | None => false end
      then emit (QueryMessages c 30) h
      else setMessages (fun _ => []) h
  end.

(** [fetchMessages], from the answer of the fallback query on. *)
Definition fetchMessages_fallback_settled (r : Reply (list MessageRow.t))
    (senders : option (list User.t)) (h : Hook) : Hook :=
  match r with
  | Resolved data => setMessages (fun _ => chronological senders data) h
  | Rejected _ => setMessages (fun _ => []) h
  end.


(** ** The backing table, as far as the queries of the hook read it

    The service is external to the repository; this is the contract of its
    filtered, ordered and limited read, used to say which conversation a
    row belongs to. *)

Module Store.

Record stored := mk { chat : string; row : MessageRow.t }.

Definition table := list stored.

(** Newest first: [.order('created_at', { ascending: false })]. *)
Fixpoint insert_desc (r : MessageRow.t) (l : list MessageRow.t) : list MessageRow.t :=
  match l with
  | [] => [r]
  | x :: l' =>
      if String.leb (MessageRow.created_at x) (MessageRow.created_at r) then r :: l
      else x :: insert_desc r l'
  end.

Definition order_desc (l : list MessageRow.t) : list MessageRow.t :=
  fold_right insert_desc [] l.

(** [.eq('chat_id', c).order(...).limit(n)] *)
Definition select_messages (t : table) (c : string) (n : nat) : list MessageRow.t :=
  firstn n (order_desc (map row (filter (fun s => chat s =? c) t))).


End Store.


(** ** Ordering of the visible list *)

(** Ascending by creation timestamp; timestamps of one format compare as
    strings. *)
Fixpoint ascending (l : list Message) : bool :=
  match l with
  | [] => true
  | a :: tl =>
      match tl with
      | [] => true
      | b :: _ => String.leb (created_at a) (created_at b) && ascending tl
      end
  end.



(** ** [useTyping]: inbound typing signals

    Time is the clock of the event loop in milliseconds.  A timer handed to
    [setTimeout] is kept with the time it is due; timers run in the order
    they were set once the clock has reached their due time. *)

Module TypingUser.
Record t := mk { id : string; name : string; avatar_url : string }.
End TypingUser.

(** [payload.payload] of a broadcast on the typing channel. *)
Record TypingPayload := mkPayload {
  user_id : string;
  user_name : string;
  user_avatar : string;
  is_typing : bool
}.

(** The [typingUsers] state and the removals that are pending. *)
Record TypingHook := mkTyping {
  typingUsers : list TypingUser.t;
  expiries : list (Z * string)
}.

(** [prev.filter(u => u.id !== user_id)] *)
Definition without (uid : string) (prev : list TypingUser.t)
  : list TypingUser.t :=
  filter (fun u => negb (TypingUser.id u =? uid)) prev.

(** The updater of the broadcast handler. *)
Definition typing_update (p : TypingPayload) (prev : list TypingUser.t)
  : list TypingUser.t :=
  if is_typing p then
    if existsb (fun u => TypingUser.id u =? user_id p) prev then prev
    else prev ++ [TypingUser.mk (user_id p) (user_name p) (user_avatar p)]
  else without (user_id p) prev.

(** The broadcast handler, run at time [now] by the user [self]. *)
Definition useTyping_broadcast (self : string) (now : Z) (p : TypingPayload)
    (t : TypingHook) : TypingHook :=
  if user_id p =? self then t
  else
    {| typingUsers := typing_update p (typingUsers t);
       expiries :=
         if is_typing p then expiries t ++ [((now + 3000)%Z, user_id p)]
         else expiries t |}.

(** The timers due at [now] run, the others stay. *)
Fixpoint fire_due (now : Z) (timers : list (Z * string))
    (users : list TypingUser.t) : list TypingUser.t * list (Z * string) :=
  match timers with
  | [] => (users, [])
  | (due, uid) :: rest =>
      if (due <=? now)%Z then fire_due now rest (without uid users)
      else
        let (users', rest') := fire_due now rest users in
        (users', (due, uid) :: rest')
  end.

Definition advance (now : Z) (t : TypingHook) : TypingHook :=
  let (users, rest) := fire_due now (expiries t) (typingUsers t) in
  {| typingUsers := users; expiries := rest |}.

(** A signal received at its time: the timers due by then have run. *)
Definition deliver (self : string) (e : Z * TypingPayload) (t : TypingHook)
  : TypingHook :=
  useTyping_broadcast self (fst e) (snd e) (advance (fst e) t).

Definition deliver_all (self : string) (evs : list (Z * TypingPayload))
    (t : TypingHook) : TypingHook :=
  fold_left (fun acc e => deliver self e acc) evs t.

Definition shown_typing (uid : string) (t : TypingHook) : bool :=
  existsb (fun u => TypingUser.id u =? uid) (typingUsers t).

(** ** The send protocol as a transition system

    The hook together with the bookkeeping needed to speak about "the
    server-confirmed counterpart of a send": which sends were submitted,
    which create requests were answered, which rows the service stores and
    for which send it stored them.  The steps are the four list mutations
    of a send (the optimistic append, the reconciliation on success, the
    re-tagging on failure, the realtime merge) and the moves of the
    service, in any order the event loop may see them. *)

(** Identifiers assigned by the service carry none of the client's tags. *)
Definition server_id (i : string) : bool :=
  negb (JS.startsWith i "temp-") && negb (JS.startsWith i "failed-").

(** What the continuation of a [sendMessage] call has captured. *)
Record Send := mkSend {
  send_id : string;
  send_user : Auth.user;
  send_profile : option User.t;
  send_content : string;
  send_type : MessageType;
  send_mood : Mood
}.

Record World := mkWorld {
  hook : Hook;
  sends : list Send;
  answered : list string;
  table : list MessageRow.t;
  stored_for : list (string * MessageRow.t)
}.

Definition view (w : World) : list Message := messages (hook w).

Inductive step : World -> World -> Prop :=
| step_submit (env : Env) (c0 : string) (ty : MessageType) (md : Mood)
    (date_now random now c : string) (u : Auth.user) (w : World) :
    open_chat env = Some c ->
    user env = Some u ->
    JS.truthy (JS.trim c0) = true ->
    ~ In (temp_id date_now random) (map send_id (sends w)) ->
    step w
      {| hook := sendMessage env c0 ty md date_now random now (hook w);
         sends := mkSend (temp_id date_now random) u (profile env)
                    (JS.trim c0) ty md :: sends w;
         answered := answered w;
         table := table w;
         stored_for := stored_for w |}
| step_store (s : Send) (row : MessageRow.t) (w : World) :
    In s (sends w) ->
    ~ In (send_id s) (map fst (stored_for w)) ->
    server_id (MessageRow.id row) = true ->
    ~ In (MessageRow.id row) (map MessageRow.id (table w)) ->
    MessageRow.content row = send_content s ->
    MessageRow.sender_id row = Auth.id (send_user s) ->
    step w
      {| hook := hook w;
         sends := sends w;
         answered := answered w;
         table := row :: table w;
         stored_for := (send_id s, row) :: stored_for w |}
| step_store_other (row : MessageRow.t) (w : World) :
    server_id (MessageRow.id row) = true ->
    ~ In (MessageRow.id row) (map MessageRow.id (table w)) ->
    step w
      {| hook := hook w;
         sends := sends w;
         answered := answered w;
         table := row :: table w;
         stored_for := stored_for w |}
| step_resolved (s : Send) (row : MessageRow.t) (t1 t2 : string) (w : World) :
    In s (sends w) ->
    ~ In (send_id s) (answered w) ->
    In (send_id s, row) (stored_for w) ->
    step w
      {| hook := sendMessage_settled (send_user s) (send_profile s)
                   (send_content s) (send_type s) (send_mood s) (send_id s)
                   t1 t2 (Resolved row) (hook w);
         sends := sends w;
         answered := send_id s :: answered w;
         table := table w;
         stored_for := stored_for w |}
| step_rejected (s : Send) (error : JsError) (t1 t2 : string) (w : World) :
    In s (sends w) ->
    ~ In (send_id s) (answered w) ->
    step w
      {| hook := sendMessage_settled (send_user s) (send_profile s)
                   (send_content s) (send_type s) (send_mood s) (send_id s)
                   t1 t2 (Rejected error) (hook w);
         sends := sends w;
         answered := send_id s :: answered w;
         table := table w;
         stored_for := stored_for w |}
| step_notified (row : MessageRow.t) (sender : option User.t) (w : World) :
    In row (table w) ->
    step w
      {| hook := subscribeToMessages_insert row sender (hook w);
         sends := sends w;
         answered := answered w;
         table := table w;
         stored_for := stored_for w |}.

(** A conversation just loaded: the list shows stored rows, each once, and
    no send is under way. *)
Definition initial (w : World) : Prop :=
  sends w = [] /\ answered w = [] /\ stored_for w = []
  /\ NoDup (map MessageRow.id (table w))
  /\ (forall row, In row (table w) -> server_id (MessageRow.id row) = true)
  /\ NoDup (ids (view w))
  /\ incl (ids (view w)) (map MessageRow.id (table w)).

Inductive reachable : World -> Prop :=
| reachable_initial (w : World) : initial w -> reachable w
| reachable_step (w w' : World) : reachable w -> step w w' -> reachable w'.

(** The invariant of the visible list: identifiers pairwise distinct, and
    never a provisional entry together with the row stored for its send. *)
Definition single_representative (w : World) : Prop :=
  NoDup (ids (view w))
  /\ forall o row, In (o, row) (stored_for w) ->
       ~ (In o (ids (view w)) /\ In (MessageRow.id row) (ids (view w))).

(** Where an entry of the list comes from. *)
Definition classified (w : World) (msg : Message) : Prop :=
  (exists s, In s (sends w) /\ id msg = send_id s
             /\ ~ In (send_id s) (answered w)
             /\ content msg = send_content s
             /\ sender_id msg = Auth.id (send_user s))
  \/ (exists s, In s (sends w) /\ id msg = failed_id (send_id s)
                /\ In (send_id s) (answered w))
  \/ In (id msg) (map MessageRow.id (table w)).

Record wf (w : World) : Prop := mkWf {
  wf_nodup : NoDup (ids (view w));
  wf_pair : forall o row, In (o, row) (stored_for w) ->
              In o (ids (view w)) -> ~ In (MessageRow.id row) (ids (view w));
  wf_class : forall msg, In msg (view w) -> classified w msg;
  wf_table_nodup : NoDup (map MessageRow.id (table w));
  wf_table_server : forall row, In row (table w) ->
                      server_id (MessageRow.id row) = true;
  wf_sends_temp : forall s, In s (sends w) ->
                    JS.startsWith (send_id s) "temp-" = true;
  wf_sends_nodup : NoDup (map send_id (sends w));
  wf_answered : forall o, In o (answered w) -> In o (map send_id (sends w));
  wf_stored_inj : forall o1 o2 r1 r2,
                    In (o1, r1) (stored_for w) -> In (o2, r2) (stored_for w) ->
                    MessageRow.id r1 = MessageRow.id r2 -> o1 = o2;
  wf_stored : forall o row, In (o, row) (stored_for w) ->
                In row (table w)
                /\ exists s, In s (sends w) /\ send_id s = o
                             /\ MessageRow.content row = send_content s
                             /\ MessageRow.sender_id row = Auth.id (send_user s)
}.

(** An identifier after the entry carrying [a] was given [b]. *)
Definition rename (a b i : string) : string := if i =? a then b else i.

(** ** Order of the rows a query answers *)

(** Descending by creation timestamp, as
    [.order('created_at', { ascending: false })] asks for. *)
Fixpoint newest_first (l : list MessageRow.t) : bool :=
  match l with
  | [] => true
  | a :: tl =>
      match tl with
      | [] => true
      | b :: _ =>
          String.leb (MessageRow.created_at b) (MessageRow.created_at a) && newest_first tl
      end
  end.


(** The errors on which [fetchMessages] falls back to the simpler query:
    [error.message?.includes('timeout') || error.code === '57014']. *)
Definition is_query_timeout (error : JsError) : bool :=
  mentions_timeout error
  || match code error with Some k => k =? "57014" | None => false end.

(** A load both of whose queries fail: the first with [e1] and, when the
    fallback query is issued, the fallback with [e2]. *)
Definition failed_load (c : string) (e1 e2 : JsError)
    (senders : option (list User.t)) (h : Hook) : Hook :=
  let h1 := fetchMessages_settled c (Rejected e1) senders h in
  if is_query_timeout e1
  then fetchMessages_fallback_settled (Rejected e2) senders h1
  else h1.

(** Queries an outbox holds. *)
Fixpoint queried (o : list Effect) : list (string * nat) :=
  match o with
  | [] => []
  | QueryMessages c n :: o' => (c, n) :: queried o'
  | _ :: o' => queried o'
  end.

(** The arguments the retry timer of a send captures. *)
Definition retry_args (trimmedContent : string) (ty : MessageType) (md : Mood)
    (optimisticId : string) : RetryArgs :=
  {| retry_content := trimmedContent;
     retry_type := ty;
     retry_mood := md;
     originalOptimisticId := optimisticId |}.


(** ** [useTyping]: outbound typing signals

    The hook keeps the [isTyping] state, the idle timer of
    [typingTimeoutRef] (here the time it is due, when one is pending) and
    the time of the last signal in [lastTypingSignalRef]; the broadcasts
    sent on the typing channel are logged with the time they were sent.
    The handlers read the state of the latest render. *)

Record Composer := mkComposer {
  isTyping : bool;
  typingTimeout : option Z;
  lastTypingSignal : Z;
  broadcasts : list (Z * TypingPayload)
}.

(** The state at mount. *)
Definition composer0 : Composer :=
  {| isTyping := false; typingTimeout := None; lastTypingSignal := 0%Z;
     broadcasts := [] |}.

Definition setIsTyping (b : bool) (st : Composer) : Composer :=
  {| isTyping := b;
     typingTimeout := typingTimeout st;
     lastTypingSignal := lastTypingSignal st;
     broadcasts := broadcasts st |}.

Definition set_typingTimeout (t : option Z) (st : Composer) : Composer :=
  {| isTyping := isTyping st;
     typingTimeout := t;
     lastTypingSignal := lastTypingSignal st;
     broadcasts := broadcasts st |}.

(** [sendTypingIndicator(typing)] at time [now]. *)
Definition sendTypingIndicator (env : Env) (now : Z) (typing : bool)
    (st : Composer) : Composer :=
  match open_chat env, user env, profile env with
  | Some _, Some u, Some p =>
      if typing && (now - lastTypingSignal st <? 500)%Z then st
      else
        {| isTyping := isTyping st;
           typingTimeout := typingTimeout st;
           lastTypingSignal := now;
           broadcasts :=
             broadcasts st
             ++ [(now, {| user_id := Auth.id u;
                          user_name := User.name p;
                          user_avatar := User.avatar_url p;
                          is_typing := typing |})] |}
  | _, _, _ => st
  end.

(** [handleTyping()] at time [now]: the idle timer is set anew, due one
    second later. *)
Definition handleTyping (env : Env) (now : Z) (st : Composer) : Composer :=
  let st1 :=
    if isTyping st then st
    else sendTypingIndicator env now true (setIsTyping true st) in
  set_typingTimeout (Some (now + 1000)%Z) st1.

(** [stopTyping()] at time [now]. *)
Definition stopTyping (env : Env) (now : Z) (st : Composer) : Composer :=
  let st1 := set_typingTimeout None st in
  if isTyping st1 then sendTypingIndicator env now false (setIsTyping false st1)
  else st1.

(** The callback of the idle timer, run at time [now]. *)
Definition typingTimeout_fires (env : Env) (now : Z) (st : Composer)
  : Composer :=
  sendTypingIndicator env now false
    (setIsTyping false (set_typingTimeout None st)).

(** The clock reaches [now]: an idle timer that is due runs, at its due
    time. *)
Definition idle_until (env : Env) (now : Z) (st : Composer) : Composer :=
  match typingTimeout st with
  | Some due => if (due <=? now)%Z then typingTimeout_fires env due st else st
  | None => st
  end.

Inductive ComposerEvent := Keystroke | Stop.

Definition composer_step (env : Env) (e : Z * ComposerEvent) (st : Composer)
  : Composer :=
  let st1 := idle_until env (fst e) st in
  match snd e with
  | Keystroke => handleTyping env (fst e) st1
  | Stop => stopTyping env (fst e) st1
  end.

Definition composer_run (env : Env) (evs : list (Z * ComposerEvent))
    (st : Composer) : Composer :=
  fold_left (fun acc e => composer_step env e acc) evs st.

(** In a log of broadcasts, every typing=true signal comes at least 500 ms
    after the signal before it. *)
Fixpoint well_spaced (log : list (Z * TypingPayload)) : Prop :=
  match log with
  | [] => True
  | a :: tl =>
      match tl with
      | [] => True
      | b :: _ =>
          (is_typing (snd b) = true -> (fst a + 500 <= fst b)%Z)
          /\ well_spaced tl
      end
  end.

(** The log is well spaced and ends with the signal [lastTypingSignalRef]
    remembers. *)
Definition log_tracked (st : Composer) : Prop :=
  well_spaced (broadcasts st)
  /\ (broadcasts st = []
      \/ exists l a, broadcasts st = l ++ [a] /\ fst a = lastTypingSignal st).

(** ** The chat view: composing and sending

    The state of the view that its handlers touch, with the two hooks it
    uses.  Each hook reads the session through its own [useAuth], so the
    handlers take the closure of [useMessages] ([menv]) and the closure of
    [useTyping] ([tenv]). *)

Record ChatView := mkChatView {
  newMessage : string;
  selectedMood : Mood;
  showMoodSelector : bool;
  isSending : bool;
  chat_hook : Hook;
  chat_composer : Composer
}.

(** [handleInputChange]: the typing indicator follows the input. *)
Definition handleInputChange (tenv : Env) (value : string) (now : Z)
    (v : ChatView) : ChatView :=
  {| newMessage := value;
     selectedMood := selectedMood v;
     showMoodSelector := showMoodSelector v;
     isSending := isSending v;
     chat_hook := chat_hook v;
     chat_composer :=
       if JS.truthy (JS.trim value)
       then handleTyping tenv now (chat_composer v)
       else stopTyping tenv now (chat_composer v) |}.

(** [handleSend], up to the [await] of [sendMessage]; [now] is the clock of
    [stopTyping], the strings are the clock and random readings of
    [sendMessage]. *)
Definition handleSend (menv tenv : Env) (now : Z)
    (date_now random iso : string) (v : ChatView) : ChatView :=
  let messageToSend := JS.trim (newMessage v) in
  if negb (JS.truthy messageToSend) || isSending v then v
  else
    {| newMessage := EmptyString;
       selectedMood := neutral;
       showMoodSelector := false;
       isSending := true;
       chat_hook :=
         sendMessage menv messageToSend text (selectedMood v) date_now random
           iso (chat_hook v);
       chat_composer := stopTyping tenv now (chat_composer v) |}.

(** The [finally] of [handleSend], once [sendMessage] has returned. *)
Definition handleSend_finally (v : ChatView) : ChatView :=
  {| newMessage := newMessage v;
     selectedMood := selectedMood v;
     showMoodSelector := showMoodSelector v;
     isSending := false;
     chat_hook := chat_hook v;
     chat_composer := chat_composer v |}.

(** [handleKeyPress]: Enter without Shift sends. *)
Definition handleKeyPress (menv tenv : Env) (key : string) (shiftKey : bool)
    (now : Z) (date_now random iso : string) (v : ChatView) : ChatView :=
  if (key =? "Enter") && negb shiftKey
  then handleSend menv tenv now date_now random iso v
  else v.

(** How the view renders an entry: the alternatives of the footer of its
    bubble, in the order the view tests them. *)
Inductive Bubble := Sending | FailedTapToRetry | RetryingSpinner | SentAgo.

Definition isOptimistic (m : Message) : bool := JS.startsWith (id m) "temp-".
Definition isFailed (m : Message) : bool := JS.startsWith (id m) "failed-".
Definition isRetrying (m : Message) : bool :=
  JS.startsWith (content m) "Retrying:".

Definition bubble (m : Message) : Bubble :=
  if isOptimistic m then Sending
  else if isFailed m then FailedTapToRetry
  else if isRetrying m then RetryingSpinner
  else SentAgo.

(** ** [useMessageReactions]: counts, own reactions and the toggle

    A reaction is one of the seven emoji of the [reaction_type] of the
    table, kept as the string the row carries.  The [counts] object is an
    association list in insertion order, which is the order of
    [Object.keys] for keys that are not integers. *)

Module Reaction.
Record t := mk { message_id : string; user_id : string; reaction : string }.
End Reaction.

(** [counts[key] = (counts[key] || 0) + 1] *)
Fixpoint bump (key : string) (counts : list (string * nat))
  : list (string * nat) :=
  match counts with
  | [] => [(key, 1)]
  | (k, n) :: rest =>
      if k =? key then (k, n + 1) :: rest else (k, n) :: bump key rest
  end.

(** [getReactionCounts()] *)
Definition getReactionCounts (reactions : list Reaction.t)
  : list (string * nat) :=
  fold_left (fun counts r => bump (Reaction.reaction r) counts) reactions [].

(** [counts[key]] *)
Definition count_of (key : string) (counts : list (string * nat))
  : option nat :=
  option_map snd (find (fun kv => fst kv =? key) counts).

(** [r.user_id === user?.id] *)
Definition is_own (user : option Auth.user) (r : Reaction.t) : bool :=
  match user with
  | Some u => Reaction.user_id r =? Auth.id u
  | None => false
  end.

(** [getUserReactions()] *)
Definition getUserReactions (user : option Auth.user)
    (reactions : list Reaction.t) : list string :=
  map Reaction.reaction (filter (is_own user) reactions).

(** What the hook asks of the [message_reactions] table. *)
Inductive ReactionRequest :=
| InsertReaction (message_id user_id reaction : string)
| DeleteReaction (message_id user_id reaction : string).

(** [!messageId]: null and the empty string are falsy. *)
Definition given (messageId : option string) : option string :=
  match messageId with
  | Some m => if JS.truthy m then Some m else None
  | None => None
  end.

Definition addReaction (messageId : option string) (user : option Auth.user)
    (reaction : string) : option ReactionRequest :=
  match given messageId, user with
  | Some m, Some u => Some (InsertReaction m (Auth.id u) reaction)
  | _, _ => None
  end.

Definition removeReaction (messageId : option string)
    (user : option Auth.user) (reaction : string) : option ReactionRequest :=
  match given messageId, user with
  | Some m, Some u => Some (DeleteReaction m (Auth.id u) reaction)
  | _, _ => None
  end.

Definition toggleReaction (messageId : option string)
    (user : option Auth.user) (reactions : list Reaction.t)
    (reaction : string) : option ReactionRequest :=
  match find (fun r => is_own user r && (Reaction.reaction r =? reaction))
          reactions with
  | Some _ => removeReaction messageId user reaction
  | None => addReaction messageId user reaction
  end.

(** [userReactions.includes(reaction)]: the button is highlighted. *)
Definition highlighted (user : option Auth.user) (reactions : list Reaction.t)
    (reaction : string) : bool :=
  existsb (fun k => k =? reaction) (getUserReactions user reactions).

(** How many of the reactions carry the emoji. *)
Definition occurrences (key : string) (reactions : list Reaction.t) : nat :=
  length (filter (fun r => Reaction.reaction r =? key) reactions).

Definition total (counts : list (string * nat)) : nat :=
  fold_right (fun kv acc => snd kv + acc) 0 counts.

(** ** Scenarios used to exercise the properties *)

(** The session used by the concrete scenarios below. *)
Definition alice : Auth.user := Auth.mk "u1" (Some "alice@example.org").

Definition env1 : Env :=
  {| chatId := Some "c1"; user := Some alice; profile := None |}.

Definition empty_hook : Hook := {| messages := []; outbox := [] |}.

(** "hello" submitted from an empty view. *)
Definition hello_sent : Hook :=
  sendMessage env1 "hello" text neutral "1" "0.5" "2025-07-05T10:00:00.000Z"
    empty_hook.

(** The error of the 30 s race, and the error the service client reports
    when the request could not reach the service. *)
Definition race_timeout : JsError :=
  {| message := Some "Message send timeout"; code := None |}.

Definition fetch_failure : JsError :=
  {| message := Some "TypeError: Failed to fetch"; code := Some EmptyString |}.

(** "hello", whose create request timed out, at the moment the retry timer
    has fired and [retryMessage] awaits its own create request. *)
Definition hello_retry_args : RetryArgs :=
  {| retry_content := "hello"; retry_type := text; retry_mood := neutral;
     originalOptimisticId := "temp-1-0.5" |}.

Definition hello_failed : Hook :=
  sendMessage_settled alice None "hello" text neutral "temp-1-0.5" "t1" "t2"
    (Rejected race_timeout) hello_sent.

Definition hello_retrying : Hook :=
  retryMessage env1 hello_retry_args hello_failed.

(** The row the service stores for the retried "hello". *)
Definition hello_row : MessageRow.t :=
  {| MessageRow.id := "m1"; MessageRow.content := "hello";
     MessageRow.created_at := "2025-07-05T10:00:33.000000+00:00";
     MessageRow.sender_id := "u1"; MessageRow.type := text; MessageRow.mood := neutral |}.

(** The confirmed "hello" in the list, its notification arriving after. *)
Definition hello_confirmed : Hook :=
  sendMessage_settled alice None "hello" text neutral "temp-1-0.5" "t1" "t2"
    (Resolved hello_row) hello_sent.

(** The entry "hello" once its automatic retry failed as well. *)
Definition hello_permanent : Hook :=
  retryMessage_settled alice None hello_retry_args "t1" "t2"
    (Rejected race_timeout) hello_retrying.

(** Two rows of another participant, one second apart. *)
Definition first_row : MessageRow.t :=
  {| MessageRow.id := "m1"; MessageRow.content := "one";
     MessageRow.created_at := "2025-07-05T10:00:01.000000+00:00";
     MessageRow.sender_id := "u2"; MessageRow.type := text; MessageRow.mood := neutral |}.




Definition two_chats : Store.table :=
  [ Store.mk "A" {| MessageRow.id := "a1"; MessageRow.content := "for A";
                    MessageRow.created_at := "2025-07-05T09:00:00.000000+00:00";
                    MessageRow.sender_id := "u2"; MessageRow.type := text;
                    MessageRow.mood := neutral |};
    Store.mk "B" {| MessageRow.id := "b1"; MessageRow.content := "for B";
                    MessageRow.created_at := "2025-07-05T09:30:00.000000+00:00";
                    MessageRow.sender_id := "u3"; MessageRow.type := text;
                    MessageRow.mood := happy |};
    Store.mk "A" {| MessageRow.id := "a2"; MessageRow.content := "also for A";
                    MessageRow.created_at := "2025-07-05T09:45:00.000000+00:00";
                    MessageRow.sender_id := "u1"; MessageRow.type := text;
                    MessageRow.mood := neutral |} ].

(** Bob starts typing at 1000 ms while Carol is shown as typing; Carol
    signals again at 3600 ms. *)
Definition bob_types : TypingPayload :=
  {| user_id := "u2"; user_name := "Bob"; user_avatar := "b.png";
     is_typing := true |}.

Definition bob_stops : TypingPayload :=
  {| user_id := "u2"; user_name := "Bob"; user_avatar := "b.png";
     is_typing := false |}.

Definition carol_types : TypingPayload :=
  {| user_id := "u3"; user_name := "Carol"; user_avatar := "c.png";
     is_typing := true |}.

Definition carol_shown : TypingHook :=
  deliver "u1" (400%Z, carol_types) {| typingUsers := []; expiries := [] |}.

(** "hello" in the transition system: submitted, stored by the service,
    notified over the realtime channel before the create request is
    answered, then answered. *)
Definition hello_send : Send :=
  mkSend "temp-1-0.5" alice None "hello" text neutral.

Definition world0 : World :=
  {| hook := empty_hook; sends := []; answered := []; table := [];
     stored_for := [] |}.

Definition world_submitted : World :=
  {| hook := hello_sent; sends := [hello_send]; answered := []; table := [];
     stored_for := [] |}.

Definition world_stored : World :=
  {| hook := hello_sent; sends := [hello_send]; answered := [];
     table := [hello_row]; stored_for := [("temp-1-0.5", hello_row)] |}.

Definition world_notified : World :=
  {| hook := subscribeToMessages_insert hello_row None hello_sent;
     sends := [hello_send]; answered := []; table := [hello_row];
     stored_for := [("temp-1-0.5", hello_row)] |}.

Definition world_answered : World :=
  {| hook := sendMessage_settled alice None "hello" text neutral "temp-1-0.5"
               "t1" "t2" (Resolved hello_row)
               (subscribeToMessages_insert hello_row None hello_sent);
     sends := [hello_send]; answered := ["temp-1-0.5"]; table := [hello_row];
     stored_for := [("temp-1-0.5", hello_row)] |}.

(** Alice with a profile, composing in conversation "c1". *)
Definition alice_profile : User.t :=
  {| User.id := "u1"; User.email := "alice@example.org"; User.name := "Alice";
     User.username := "alice"; User.avatar_url := "a.png";
     User.status_message := EmptyString;
     User.last_active := "2025-07-05T09:00:00.000Z";
     User.created_at := "2025-01-01T00:00:00.000Z" |}.

Definition env_typing : Env :=
  {| chatId := Some "c1"; user := Some alice; profile := Some alice_profile |}.

(** Alice has typed once, at 10 000 ms. *)
Definition typed_paused : Composer :=
  composer_run env_typing [(10000%Z, Keystroke)] composer0.

(** Nobody is shown as typing. *)
Definition nobody_typing : TypingHook :=
  {| typingUsers := []; expiries := [] |}.

(** Alice has typed " hello " with the mood selector open on "happy". *)
Definition composing_hello : ChatView :=
  handleInputChange env_typing " hello " 10000
    {| newMessage := EmptyString; selectedMood := happy;
       showMoodSelector := true; isSending := false;
       chat_hook := empty_hook; chat_composer := composer0 |}.

(** Three reactions on message "m1": two thumbs, one of them Alice's, and a
    heart. *)
Definition three_reactions : list Reaction.t :=
  [ Reaction.mk "m1" "u2" "👍"; Reaction.mk "m1" "u1" "👍";
    Reaction.mk "m1" "u3" "❤️" ].

(** * Properties *)

(** ** Helper lemmas on lists and strings *)

Lemma nth_error_replace_hit (target : string) (m msg : Message)
    (l : list Message) (i : nat) :
  nth_error l i = Some msg -> id msg = target ->
  nth_error (replace_by_id target m l) i = Some m.
Proof.
  intros Hi Hid. unfold replace_by_id.
  rewrite nth_error_map, Hi. simpl.
  rewrite Hid, String.eqb_refl. reflexivity.
Qed.

Lemma nth_error_replace_miss (target : string) (m msg : Message)
    (l : list Message) (i : nat) :
  nth_error l i = Some msg -> id msg <> target ->
  nth_error (replace_by_id target m l) i = Some msg.
Proof.
  intros Hi Hid. unfold replace_by_id.
  rewrite nth_error_map, Hi. simpl.
  apply String.eqb_neq in Hid. rewrite Hid. reflexivity.
Qed.

Lemma prefix_nil (s : string) : String.prefix EmptyString s = true.
Proof. destruct s; reflexivity. Qed.

Lemma startsWith_failed_id (oid : string) :
  JS.startsWith (failed_id oid) "failed-" = true.
Proof. unfold JS.startsWith, failed_id. simpl. apply prefix_nil. Qed.

Lemma startsWith_temp_id (d r : string) :
  JS.startsWith (temp_id d r) "temp-" = true.
Proof. unfold JS.startsWith, temp_id. simpl. apply prefix_nil. Qed.

Lemma scheduled_app (o1 o2 : list Effect) :
  scheduled (o1 ++ o2) = scheduled o1 ++ scheduled o2.
Proof.
  induction o1 as [|[b|ms k|c n] o1 IH]; simpl; rewrite ?IH; reflexivity.
Qed.

Lemma created_app (o1 o2 : list Effect) :
  created (o1 ++ o2) = created o1 ++ created o2.
Proof.
  induction o1 as [|[b|ms k|c n] o1 IH]; simpl; rewrite ?IH; reflexivity.
Qed.

(** ** C10: the guard of [sendMessage] *)

(** C10. When the content is empty after trimming, or no conversation is
    open, or no user is authenticated, [sendMessage] returns the hook as it
    found it: the visible list is untouched and nothing is added to the
    outbox, so no create request is issued. *)
Theorem sendMessage_guard (env : Env) (c0 : string) (ty : MessageType)
    (md : Mood) (date_now random now : string) (h : Hook) :
  JS.trim c0 = EmptyString \/ open_chat env = None \/ user env = None ->
  sendMessage env c0 ty md date_now random now h = h
  /\ messages (sendMessage env c0 ty md date_now random now h) = messages h
  /\ created (outbox (sendMessage env c0 ty md date_now random now h))
     = created (outbox h).
Proof.
  intros H.
  assert (E : sendMessage env c0 ty md date_now random now h = h).
  { unfold sendMessage.
    destruct (open_chat env) as [c|]; [|reflexivity].
    destruct (user env) as [u|]; [|reflexivity].
    destruct H as [H|[H|H]]; try discriminate.
    rewrite H. reflexivity. }
  rewrite E. auto.
Qed.

Lemma sendMessage_guard_witness :
  let env := {| chatId := Some "c1";
                user := Some (Auth.mk "u1" None);
                profile := None |} in
  let h := {| messages := []; outbox := [] |} in
  sendMessage env "  " text neutral "1" "0.5" "t" h = h
  /\ messages (sendMessage env "  " text neutral "1" "0.5" "t" h) = messages h
  /\ created (outbox (sendMessage env "  " text neutral "1" "0.5" "t" h))
     = created (outbox h).
Proof.
  intros env h.
  apply (sendMessage_guard env "  " text neutral "1" "0.5" "t" h).
  left. reflexivity.
Defined.

(** ** The confirmed send

    "hello" is submitted, shown at once as a provisional entry, and
    confirmed by the service: the list holds one entry, with the identifier
    and the timestamp of the stored row. *)

Example hello_shown_then_confirmed :
  map (fun m => (id m, content m)) (messages hello_sent)
  = [("temp-1-0.5", "hello")]
  /\ map (fun m => (id m, content m, created_at m)) (messages hello_confirmed)
     = [("m1", "hello", "2025-07-05T10:00:33.000000+00:00")].
Proof. split; reflexivity. Qed.

(** ** C3: failure of the create request *)

Lemma nth_error_mark_failed (oid c : string) (msg : Message)
    (l : list Message) (i : nat) :
  nth_error l i = Some msg -> id msg = oid ->
  nth_error (mark_failed oid c l) i = Some (as_failed oid c msg).
Proof.
  intros Hi Hid. unfold mark_failed.
  rewrite nth_error_map, Hi. simpl.
  rewrite Hid, String.eqb_refl. reflexivity.
Qed.

(** C3 (as the code has it).  When the create request of a send fails, the
    provisional entry is rewritten in place to carry the failure marker
    prefix; an automatic retry with the same content, kind and mood is
    scheduled after 2000 ms exactly when the error message contains
    "timeout", and no retry is scheduled for any other error.  No request
    is issued by the failure handling itself. *)
Theorem send_failure_policy (u : Auth.user) (p : option User.t) (c : string)
    (ty : MessageType) (md : Mood) (oid t1 t2 : string) (error : JsError)
    (h : Hook) (i : nat) (msg : Message) :
  nth_error (messages h) i = Some msg -> id msg = oid ->
  let h' := sendMessage_settled u p c ty md oid t1 t2 (Rejected error) h in
  nth_error (messages h') i = Some (as_failed oid c msg)
  /\ content (as_failed oid c msg) = ("❌ Failed to send: " ++ c)%string
  /\ scheduled (outbox h')
     = scheduled (outbox h)
       ++ (if mentions_timeout error
           then [(2000%Z, {| retry_content := c; retry_type := ty;
                             retry_mood := md; originalOptimisticId := oid |})]
           else [])
  /\ created (outbox h') = created (outbox h).
Proof.
  intros Hi Hid h'. subst h'. unfold sendMessage_settled.
  destruct (mentions_timeout error); simpl;
    rewrite ?scheduled_app, ?created_app; simpl;
    rewrite ?app_nil_r;
    (split; [apply nth_error_mark_failed; assumption|]);
    repeat split; reflexivity.
Qed.

Lemma send_failure_policy_witness :
  let h' := sendMessage_settled alice None "hello" text neutral "temp-1-0.5"
              "t1" "t2" (Rejected race_timeout) hello_sent in
  map content (messages h') = ["❌ Failed to send: hello"]
  /\ scheduled (outbox h')
     = [(2000%Z, {| retry_content := "hello"; retry_type := text;
                    retry_mood := neutral;
                    originalOptimisticId := "temp-1-0.5" |})].
Proof.
  pose proof (send_failure_policy alice None "hello" text neutral "temp-1-0.5"
                "t1" "t2" race_timeout hello_sent 0
                (optimisticMessage "c1" alice None "temp-1-0.5" "hello" text
                   neutral "2025-07-05T10:00:00.000Z")
                eq_refl eq_refl) as [_ [_ [H _]]].
  split; [reflexivity | exact H].
Defined.

(** C3, the claim as stated fails: a send whose request could not reach the
    service (a network error, whose message does not mention a timeout) is
    marked as failed, but no automatic retry is scheduled. *)
Lemma network_error_schedules_no_retry :
  let h' := sendMessage_settled alice None "hello" text neutral "temp-1-0.5"
              "t1" "t2" (Rejected fetch_failure) hello_sent in
  map content (messages h') = ["❌ Failed to send: hello"]
  /\ scheduled (outbox h') = []
  /\ ~ (exists k, scheduled (outbox h') = [(2000%Z, k)]).
Proof.
  repeat split; try reflexivity.
  intros [k Hk]. vm_compute in Hk. discriminate Hk.
Qed.

(** ** C4 and C5: the automatic retry *)

Lemma nth_error_mark_permanent (fid c : string) (msg : Message)
    (l : list Message) (i : nat) :
  nth_error l i = Some msg -> id msg = fid ->
  nth_error (mark_permanent fid c l) i
  = Some (set_content ("💀 Failed permanently: " ++ c)%string msg).
Proof.
  intros Hi Hid. unfold mark_permanent.
  rewrite nth_error_map, Hi. simpl.
  rewrite Hid, String.eqb_refl. reflexivity.
Qed.

(** C4. When the automatic retry of a failed send fails as well, the failed
    entry keeps its place and identifier, its content becomes the
    permanent-failure marker followed by the retried content, and the
    outbox is left as it was: no timer is set, so no further automatic
    retry is scheduled, and no request is issued. *)
Theorem retry_failure_is_permanent (u : Auth.user) (p : option User.t)
    (a : RetryArgs) (t1 t2 : string) (error : JsError) (h : Hook) (i : nat)
    (msg : Message) :
  nth_error (messages h) i = Some msg ->
  id msg = failed_id (originalOptimisticId a) ->
  let h' := retryMessage_settled u p a t1 t2 (Rejected error) h in
  (exists msg', nth_error (messages h') i = Some msg'
     /\ id msg' = failed_id (originalOptimisticId a)
     /\ content msg' = ("💀 Failed permanently: " ++ retry_content a)%string)
  /\ length (messages h') = length (messages h)
  /\ outbox h' = outbox h
  /\ scheduled (outbox h') = scheduled (outbox h).
Proof.
  intros Hi Hid h'. subst h'. unfold retryMessage_settled. simpl.
  split.
  - eexists. split.
    + apply nth_error_mark_permanent; eassumption.
    + simpl. auto.
  - unfold mark_permanent. rewrite length_map. auto.
Qed.

Lemma retry_failure_is_permanent_witness :
  let h' := retryMessage_settled alice None hello_retry_args "t1" "t2"
              (Rejected race_timeout) hello_retrying in
  map content (messages hello_failed) = ["❌ Failed to send: hello"]
  /\ map content (messages h') = ["💀 Failed permanently: hello"]
  /\ scheduled (outbox h') = scheduled (outbox hello_retrying).
Proof.
  epose proof (retry_failure_is_permanent alice None hello_retry_args "t1" "t2"
                 race_timeout hello_retrying 0 _ eq_refl eq_refl)
    as [_ [_ [_ H]]].
  split; [reflexivity | split; [reflexivity | exact H]].
Defined.

(** C5. When the automatic retry of a failed send succeeds, the failed
    entry is replaced where it stands by the row the service returned: the
    list keeps its length, the entry at that position carries the
    server-assigned identifier, and, the service returning the content it
    was asked to store, the content is the retried one, with no marker in
    front.  Entries with another identifier are left as they are. *)
Theorem retry_success_replaces_in_place (u : Auth.user) (p : option User.t)
    (a : RetryArgs) (t1 t2 : string) (data : MessageRow.t) (h : Hook) (i : nat)
    (msg : Message) :
  nth_error (messages h) i = Some msg ->
  id msg = failed_id (originalOptimisticId a) ->
  MessageRow.content data = retry_content a ->
  let h' := retryMessage_settled u p a t1 t2 (Resolved data) h in
  length (messages h') = length (messages h)
  /\ (exists msg', nth_error (messages h') i = Some msg'
        /\ id msg' = MessageRow.id data
        /\ content msg' = retry_content a
        /\ created_at msg' = MessageRow.created_at data)
  /\ (forall j other, nth_error (messages h) j = Some other ->
        id other <> failed_id (originalOptimisticId a) ->
        nth_error (messages h') j = Some other)
  /\ outbox h' = outbox h.
Proof.
  intros Hi Hid Hc h'. subst h'. unfold retryMessage_settled. simpl.
  repeat split.
  - unfold replace_by_id. apply length_map.
  - eexists. split.
    + eapply nth_error_replace_hit; eassumption.
    + simpl. auto.
  - intros j other Hj Hne. eapply nth_error_replace_miss; eassumption.
Qed.

Lemma retry_success_replaces_in_place_witness :
  let h' := retryMessage_settled alice None hello_retry_args "t1" "t2"
              (Resolved hello_row) hello_retrying in
  map content (messages hello_retrying) = ["🔄 Retrying: hello"]
  /\ length (messages h') = length (messages hello_retrying)
  /\ map id (messages h') = ["m1"]
  /\ map content (messages h') = ["hello"].
Proof.
  epose proof (retry_success_replaces_in_place alice None hello_retry_args
                 "t1" "t2" hello_row hello_retrying 0 _ eq_refl eq_refl eq_refl)
    as [H _].
  split; [reflexivity | split; [exact H | split; reflexivity]].
Defined.

(** ** C6: the realtime merge is idempotent *)

Section MergeFacts.

Variable m : Message.

Let keep (msg : Message) : bool := negb (is_optimistic_twin m msg).


Lemma merge_insert_cases (l : list Message) :
  (has_id (id m) (filter keep l) = true /\ merge_insert m l = filter keep l)
  \/ (has_id (id m) (filter keep l) = false
      /\ merge_insert m l = filter keep l ++ [m]).
Proof.
  unfold merge_insert, has_id. fold keep.
  destruct (existsb _ (filter keep l)); auto.
Qed.

Lemma has_id_app (i : string) (l1 l2 : list Message) :
  has_id i (l1 ++ l2) = has_id i l1 || has_id i l2.
Proof. unfold has_id. apply existsb_app. Qed.








(** When the identifier is present and the list holds no provisional twin
    of the row, the merge leaves the list as it is. *)
Lemma merge_insert_present_noop (l : list Message) :
  has_id (id m) l = true ->
  forallb keep l = true ->
  merge_insert m l = l.
Proof.
  intros Hin Hk.
  assert (Hf : filter keep l = l).
  { clear Hin. induction l as [|x l IH]; simpl in *; [reflexivity|].
    apply andb_true_iff in Hk as [Hx Hl]. rewrite Hx, (IH Hl). reflexivity. }
  unfold merge_insert. fold keep. rewrite Hf.
  unfold has_id in Hin. rewrite Hin. reflexivity.
Qed.

End MergeFacts.



(** ** C8: the manual retry of the chat view *)

Lemma includes_failed_marker (c : string) :
  JS.includes ("❌ Failed to send: " ++ c) "Failed to send:" = true.
Proof. reflexivity. Qed.

Lemma includes_permanent_marker (c : string) :
  JS.includes ("💀 Failed permanently: " ++ c) "Failed to send:"
  = JS.includes c "Failed to send:".
Proof. reflexivity. Qed.

(** C8, what the handler does on failed entries.  On an entry in the failed
    state the handler calls [sendMessage] with the content as displayed,
    failure marker included (the anchored pattern does not match, the
    marker starting with the cross mark), and with kind [text] whatever the
    kind of the send was.  On a permanently failed entry the guard returns
    and nothing is sent, unless the retried content itself contains
    "Failed to send:", in which case the content is again sent as
    displayed.  On the failed "hello" the tap appends a second provisional
    entry and issues a create request, both with the marked content. *)
Theorem manual_retry_keeps_marker :
  (forall oid c msg,
      handleRetryMessage (as_failed oid c msg)
      = Some (("❌ Failed to send: " ++ c)%string, text, mood msg))
  /\ (forall oid c msg,
      handleRetryMessage
        (set_content ("💀 Failed permanently: " ++ c)%string
           (as_failed oid c msg))
      = if JS.includes c "Failed to send:"
        then Some (("💀 Failed permanently: " ++ c)%string, text, mood msg)
        else None)
  /\ map handleRetryMessage (messages hello_failed)
     = [Some ("❌ Failed to send: hello", text, neutral)]
  /\ map handleRetryMessage (messages hello_permanent) = [None]
  /\ (let h := fold_right
                 (fun m h => tap_to_retry env1 m "2" "0.25"
                               "2025-07-05T10:01:00.000Z" h)
                 hello_failed (messages hello_failed) in
      map content (messages h)
      = ["❌ Failed to send: hello"; "❌ Failed to send: hello"]
      /\ map new_content (created (outbox h))
         = ["hello"; "❌ Failed to send: hello"]).
Proof.
  split; [|split; [|split; [|split]]].
  - intros oid c msg. unfold handleRetryMessage.
    cbn [as_failed id content type mood].
    rewrite includes_failed_marker, startsWith_failed_id. reflexivity.
  - intros oid c msg. unfold handleRetryMessage.
    cbn [as_failed set_content id content type mood].
    rewrite includes_permanent_marker, startsWith_failed_id.
    destruct (JS.includes c "Failed to send:"); reflexivity.
  - reflexivity.
  - reflexivity.
  - split; reflexivity.
Qed.


(** ** C2: order of the merged list *)

Lemma has_id_false_iff (i : string) (l : list Message) :
  has_id i l = false <-> ~ In i (ids l).
Proof.
  unfold has_id, ids. induction l as [|x l IH]; simpl.
  - split; [intros _ []| reflexivity].
  - destruct (String.eqb_spec (id x) i) as [E|E]; simpl.
    + split; [discriminate|]. intros H. exfalso. apply H. left. exact E.
    + rewrite IH. split.
      * intros H [H1|H1]; [apply E; exact H1 | apply H; exact H1].
      * intros H H1. apply H. right. exact H1.
Qed.

Lemma has_id_true_iff (i : string) (l : list Message) :
  has_id i l = true <-> In i (ids l).
Proof.
  destruct (has_id i l) eqn:E.
  - split; [|reflexivity]. intros _.
    destruct (in_dec string_dec i (ids l)) as [H|H]; [exact H|].
    apply has_id_false_iff in H. congruence.
  - split; [discriminate|]. intros H.
    apply has_id_false_iff in E. contradiction.
Qed.







(** ** C7: responses that arrive after the conversation changed *)

Lemma replace_by_id_absent (target : string) (m : Message) (l : list Message) :
  ~ In target (ids l) -> replace_by_id target m l = l.
Proof.
  unfold replace_by_id, ids. induction l as [|x l IH]; simpl; [reflexivity|].
  intros H. destruct (String.eqb_spec (id x) target) as [E|E].
  - exfalso. apply H. left. exact E.
  - rewrite IH; [reflexivity|]. intros H1. apply H. right. exact H1.
Qed.

Lemma mark_failed_absent (oid c : string) (l : list Message) :
  ~ In oid (ids l) -> mark_failed oid c l = l.
Proof.
  unfold mark_failed, ids. induction l as [|x l IH]; simpl; [reflexivity|].
  intros H. destruct (String.eqb_spec (id x) oid) as [E|E].
  - exfalso. apply H. left. exact E.
  - rewrite IH; [reflexivity|]. intros H1. apply H. right. exact H1.
Qed.





(** ** C9: expiry of the typing set *)

Section TypingExpiry.

Variable uid : string.

Lemma shown_without_same (users : list TypingUser.t) :
  existsb (fun u => TypingUser.id u =? uid) (without uid users) = false.
Proof.
  unfold without. induction users as [|x l IH]; simpl; [reflexivity|].
  destruct (TypingUser.id x =? uid) eqn:E; simpl; [exact IH|].
  rewrite E. exact IH.
Qed.

Lemma shown_without_other (other : string) (users : list TypingUser.t) :
  existsb (fun u => TypingUser.id u =? uid) users = false ->
  existsb (fun u => TypingUser.id u =? uid) (without other users) = false.
Proof.
  unfold without. induction users as [|x l IH]; simpl; [reflexivity|].
  intros H. apply orb_false_iff in H as [Hx Hl].
  destruct (negb (TypingUser.id x =? other)); simpl; [rewrite Hx|]; auto.
Qed.

(** Timers only remove. *)
Lemma fire_due_absent (now : Z) (timers : list (Z * string))
    (users : list TypingUser.t) :
  existsb (fun u => TypingUser.id u =? uid) users = false ->
  existsb (fun u => TypingUser.id u =? uid) (fst (fire_due now timers users))
  = false.
Proof.
  revert users. induction timers as [|[due other] rest IH]; intros users H.
  - exact H.
  - simpl. destruct (due <=? now)%Z.
    + apply IH. apply shown_without_other. exact H.
    + specialize (IH users H). destruct (fire_due now rest users). exact IH.
Qed.

(** A timer that is due removes its user. *)
Lemma fire_due_removes (now due : Z) (timers : list (Z * string))
    (users : list TypingUser.t) :
  In (due, uid) timers -> (due <= now)%Z ->
  existsb (fun u => TypingUser.id u =? uid) (fst (fire_due now timers users))
  = false.
Proof.
  revert users. induction timers as [|[d other] rest IH]; intros users Hin Hle.
  - destruct Hin.
  - simpl. destruct Hin as [E|Hin].
    + inversion E; subst d other.
      apply Z.leb_le in Hle. rewrite Hle.
      apply fire_due_absent. apply shown_without_same.
    + destruct (d <=? now)%Z.
      * apply IH; assumption.
      * specialize (IH users Hin Hle). destruct (fire_due now rest users).
        exact IH.
Qed.

(** A timer that is not due stays. *)
Lemma fire_due_keeps (now due : Z) (timers : list (Z * string))
    (users : list TypingUser.t) :
  In (due, uid) timers -> (now < due)%Z ->
  In (due, uid) (snd (fire_due now timers users)).
Proof.
  revert users. induction timers as [|[d other] rest IH]; intros users Hin Hlt.
  - destruct Hin.
  - simpl. destruct Hin as [E|Hin].
    + inversion E; subst d other.
      apply Z.leb_gt in Hlt. rewrite Hlt.
      destruct (fire_due now rest users). left. reflexivity.
    + destruct (d <=? now)%Z.
      * apply IH; assumption.
      * specialize (IH users Hin Hlt). destruct (fire_due now rest users).
        right. exact IH.
Qed.

Variable due : Z.

(** The user is not shown, or the removal due at [due] is still pending. *)
Let settled (t : TypingHook) : Prop :=
  shown_typing uid t = false \/ In (due, uid) (expiries t).

Lemma advance_settled (now : Z) (t : TypingHook) :
  settled t -> settled (advance now t).
Proof.
  unfold settled, shown_typing, advance. intros [H|H].
  - left. pose proof (fire_due_absent now (expiries t) (typingUsers t) H) as A.
    destruct (fire_due now (expiries t) (typingUsers t)). exact A.
  - destruct (Z_le_gt_dec due now) as [Hle|Hgt].
    + left.
      pose proof (fire_due_removes now due (expiries t) (typingUsers t) H Hle)
        as A.
      destruct (fire_due now (expiries t) (typingUsers t)). exact A.
    + right.
      assert (Hlt : (now < due)%Z) by lia.
      pose proof (fire_due_keeps now due (expiries t) (typingUsers t) H Hlt)
        as A.
      destruct (fire_due now (expiries t) (typingUsers t)). exact A.
Qed.

Lemma broadcast_settled (self : string) (now : Z) (q : TypingPayload)
    (t : TypingHook) :
  (user_id q = uid -> is_typing q = false) ->
  settled t -> settled (useTyping_broadcast self now q t).
Proof.
  unfold settled, shown_typing, useTyping_broadcast. intros Hq Ht.
  destruct (user_id q =? self); [exact Ht|].
  destruct Ht as [H|H].
  - left. simpl. unfold typing_update.
    destruct (is_typing q) eqn:Ety.
    + destruct (existsb (fun u => TypingUser.id u =? user_id q)
                  (typingUsers t)); [exact H|].
      rewrite existsb_app, H. simpl.
      destruct (String.eqb_spec (user_id q) uid) as [E|E]; [|reflexivity].
      specialize (Hq E). discriminate Hq.
    + apply shown_without_other. exact H.
  - right. simpl. destruct (is_typing q); [|exact H].
    apply in_or_app. left. exact H.
Qed.

Lemma deliver_all_settled (self : string) (evs : list (Z * TypingPayload))
    (t : TypingHook) :
  Forall (fun e => user_id (snd e) = uid -> is_typing (snd e) = false) evs ->
  settled t -> settled (deliver_all self evs t).
Proof.
  revert t. induction evs as [|e evs IH]; intros t Hevs Ht; [exact Ht|].
  inversion Hevs as [|e' evs' He Hrest]; subst.
  simpl. apply IH; [exact Hrest|].
  unfold deliver. apply broadcast_settled; [exact He|].
  apply advance_settled. exact Ht.
Qed.

Lemma settled_expires (t : TypingHook) :
  settled t -> shown_typing uid (advance due t) = false.
Proof.
  unfold settled, shown_typing, advance. intros [H|H].
  - pose proof (fire_due_absent due (expiries t) (typingUsers t) H) as A.
    destruct (fire_due due (expiries t) (typingUsers t)). exact A.
  - pose proof (fire_due_removes due due (expiries t) (typingUsers t) H
                  (Z.le_refl due)) as A.
    destruct (fire_due due (expiries t) (typingUsers t)). exact A.
Qed.

Lemma broadcast_sets_timer (self : string) (now : Z) (p : TypingPayload)
    (t : TypingHook) :
  user_id p = uid -> uid <> self -> is_typing p = true ->
  due = (now + 3000)%Z ->
  shown_typing uid (useTyping_broadcast self now p t) = true
  /\ settled (useTyping_broadcast self now p t).
Proof.
  intros Hu Hs Hty Hd. unfold settled, shown_typing, useTyping_broadcast.
  rewrite Hu. apply String.eqb_neq in Hs. rewrite Hs. simpl.
  rewrite Hty. split.
  - unfold typing_update. rewrite Hty, Hu.
    destruct (existsb (fun u => TypingUser.id u =? uid) (typingUsers t))
      eqn:E; [exact E|].
    rewrite existsb_app. simpl. rewrite String.eqb_refl.
    rewrite orb_true_r. reflexivity.
  - right. apply in_or_app. right. left. rewrite Hd. reflexivity.
Qed.

End TypingExpiry.

(** C9. A typing=true signal of another participant, received at time [T],
    puts the participant in the typing set.  Whatever signals follow, as
    long as none of them is a typing=true signal of that participant, the
    participant is absent from the set once the clock has reached
    [T + 3000] ms.  A typing=false signal of the participant removes the
    participant at once. *)
Theorem typing_entry_expires (self : string) (T : Z) (p q : TypingPayload)
    (evs : list (Z * TypingPayload)) (t t' : TypingHook) (now : Z) :
  user_id p <> self ->
  is_typing p = true ->
  Forall (fun e => user_id (snd e) = user_id p -> is_typing (snd e) = false)
    evs ->
  user_id q = user_id p ->
  is_typing q = false ->
  shown_typing (user_id p) (deliver self (T, p) t) = true
  /\ shown_typing (user_id p)
       (advance (T + 3000) (deliver_all self evs (deliver self (T, p) t)))
     = false
  /\ shown_typing (user_id p) (deliver self (now, q) t') = false.
Proof.
  intros Hself Hty Hevs Hq Hqty.
  destruct (broadcast_sets_timer (user_id p) (T + 3000)%Z self T p
              (advance T t) eq_refl Hself Hty eq_refl) as [Hshown Hset].
  split; [exact Hshown|]. split.
  - apply settled_expires.
    apply deliver_all_settled; [exact Hevs | exact Hset].
  - unfold deliver, useTyping_broadcast, shown_typing. simpl.
    rewrite Hq. apply String.eqb_neq in Hself. rewrite Hself. simpl.
    unfold typing_update. rewrite Hqty, Hq. apply shown_without_same.
Qed.

Lemma typing_entry_expires_witness :
  let t1 := deliver "u1" (1000%Z, bob_types) carol_shown in
  let later := deliver_all "u1" [(3600%Z, carol_types)] t1 in
  map TypingUser.name (typingUsers t1) = ["Carol"; "Bob"]
  /\ shown_typing "u2" (advance 4000 later) = false
  /\ map TypingUser.name (typingUsers (advance 4000 later)) = ["Carol"]
  /\ shown_typing "u2" (deliver "u1" (1500%Z, bob_stops) t1) = false.
Proof.
  assert (Hself : user_id bob_types <> "u1") by discriminate.
  assert (Hevs : Forall (fun e => user_id (snd e) = user_id bob_types ->
                                  is_typing (snd e) = false)
                   [(3600%Z, carol_types)]).
  { constructor; [|constructor]. simpl. discriminate. }
  destruct (typing_entry_expires "u1" 1000 bob_types bob_stops
              [(3600%Z, carol_types)] carol_shown
              (deliver "u1" (1000%Z, bob_types) carol_shown) 1500
              Hself eq_refl Hevs eq_refl eq_refl) as [_ [H2 H3]].
  split; [reflexivity | split; [exact H2 | split; [reflexivity | exact H3]]].
Defined.


(** ** C1: the invariant of the visible list *)

(** *** Identifiers: client tags and service identifiers *)

Lemma failed_id_not_temp (o : string) :
  JS.startsWith (failed_id o) "temp-" = false.
Proof. reflexivity. Qed.

Lemma failed_id_inj (a b : string) : failed_id a = failed_id b -> a = b.
Proof. unfold failed_id. simpl. intros H. injection H. auto. Qed.

Lemma server_id_not_temp (i : string) :
  server_id i = true -> JS.startsWith i "temp-" = false.
Proof.
  unfold server_id. intros H. apply andb_true_iff in H as [H _].
  apply negb_true_iff in H. exact H.
Qed.

Lemma server_id_not_failed (i o : string) :
  server_id i = true -> i <> failed_id o.
Proof.
  unfold server_id. intros H E. apply andb_true_iff in H as [_ H].
  apply negb_true_iff in H. rewrite E, startsWith_failed_id in H.
  discriminate H.
Qed.

Lemma temp_not_server (i : string) :
  JS.startsWith i "temp-" = true -> server_id i = false.
Proof. unfold server_id. intros H. rewrite H. reflexivity. Qed.

(** *** The four mutations, entry by entry *)

Lemma ids_replace_by_id (a : string) (m : Message) (l : list Message) :
  ids (replace_by_id a m l) = map (rename a (id m)) (ids l).
Proof.
  unfold ids, replace_by_id, rename. rewrite !map_map.
  apply map_ext. intros x. destruct (id x =? a); reflexivity.
Qed.

Lemma ids_mark_failed (o c : string) (l : list Message) :
  ids (mark_failed o c l) = map (rename o (failed_id o)) (ids l).
Proof.
  unfold ids, mark_failed, rename. rewrite !map_map.
  apply map_ext. intros x. destruct (id x =? o); reflexivity.
Qed.

Lemma in_rename (a b x : string) (l : list string) :
  In x (map (rename a b) l) -> (x = b /\ In a l) \/ (In x l /\ x <> a).
Proof.
  intros H. apply in_map_iff in H as [y [Hy Hin]]. unfold rename in Hy.
  destruct (String.eqb_spec y a) as [E|E]; subst.
  - left. auto.
  - right. auto.
Qed.

Lemma NoDup_rename (a b : string) (l : list string) :
  NoDup l -> ~ In b l -> NoDup (map (rename a b) l).
Proof.
  induction l as [|x l IH]; intros Hnd Hb; simpl; [constructor|].
  inversion Hnd as [|x' l' Hx Hl]; subst.
  assert (Hb' : ~ In b l) by (intros H; apply Hb; right; exact H).
  constructor; [|apply IH; assumption].
  intros H. apply in_rename in H as [[E Ha]|[Hin Hne]].
  - unfold rename in E. destruct (String.eqb_spec x a) as [Ex|Ex].
    + subst x. contradiction.
    + apply Hb. left. exact E.
  - unfold rename in Hin, Hne. destruct (String.eqb_spec x a) as [Ex|Ex].
    + contradiction.
    + contradiction.
Qed.

Lemma in_replace_by_id (a : string) (m x : Message) (l : list Message) :
  In x (replace_by_id a m l) ->
  (x = m /\ In a (ids l)) \/ (In x l /\ id x <> a).
Proof.
  unfold replace_by_id. intros H. apply in_map_iff in H as [y [Hy Hin]].
  destruct (String.eqb_spec (id y) a) as [E|E]; subst.
  - left. split; [reflexivity|]. apply in_map. exact Hin.
  - right. auto.
Qed.

Lemma in_mark_failed (o c : string) (x : Message) (l : list Message) :
  In x (mark_failed o c l) ->
  (exists y, In y l /\ id y = o /\ x = as_failed o c y)
  \/ (In x l /\ id x <> o).
Proof.
  unfold mark_failed. intros H. apply in_map_iff in H as [y [Hy Hin]].
  destruct (String.eqb_spec (id y) o) as [E|E]; subst.
  - left. exists y. auto.
  - right. auto.
Qed.

Lemma in_merge_insert (m x : Message) (l : list Message) :
  In x (merge_insert m l) ->
  x = m \/ (In x l /\ is_optimistic_twin m x = false).
Proof.
  intros H.
  assert (F : forall y,
             In y (filter (fun msg => negb (is_optimistic_twin m msg)) l) ->
             In y l /\ is_optimistic_twin m y = false).
  { intros y Hy. apply filter_In in Hy as [H1 H2].
    apply negb_true_iff in H2. auto. }
  destruct (merge_insert_cases m l) as [[_ E]|[_ E]]; rewrite E in H.
  - right. apply F. exact H.
  - apply in_app_or in H as [H|[H|[]]].
    + right. apply F. exact H.
    + left. symmetry. exact H.
Qed.

Lemma NoDup_ids_filter (f : Message -> bool) (l : list Message) :
  NoDup (ids l) -> NoDup (ids (filter f l)).
Proof.
  unfold ids. induction l as [|x l IH]; simpl; intros H; [constructor|].
  inversion H as [|x' l' Hx Hl]; subst.
  destruct (f x); simpl; [|apply IH; exact Hl].
  constructor; [|apply IH; exact Hl].
  intros Hin. apply Hx. apply in_map_iff in Hin as [y [E Hy]].
  apply filter_In in Hy as [Hy _]. rewrite <- E. apply in_map. exact Hy.
Qed.

Lemma NoDup_snoc (A : Type) (x : A) (l : list A) :
  NoDup l -> ~ In x l -> NoDup (l ++ [x]).
Proof.
  induction l as [|y l IH]; simpl; intros Hnd Hx.
  - constructor; [intros []|constructor].
  - inversion Hnd as [|y' l' Hy Hl]; subst. constructor.
    + intros H. apply in_app_or in H as [H|[H|[]]].
      * contradiction.
      * apply Hx. left. symmetry. exact H.
    + apply IH; [exact Hl|]. intros H. apply Hx. right. exact H.
Qed.

Lemma NoDup_ids_merge_insert (m : Message) (l : list Message) :
  NoDup (ids l) -> NoDup (ids (merge_insert m l)).
Proof.
  intros H.
  destruct (merge_insert_cases m l) as [[_ E]|[Hno E]]; rewrite E.
  - apply NoDup_ids_filter. exact H.
  - unfold ids. rewrite map_app. simpl.
    apply NoDup_snoc.
    + apply NoDup_ids_filter. exact H.
    + apply has_id_false_iff. exact Hno.
Qed.


(** *** What the well-formedness of a world says about one entry *)

Lemma in_ids (i : string) (l : list Message) :
  In i (ids l) <-> exists msg, In msg l /\ id msg = i.
Proof.
  unfold ids. rewrite in_map_iff. split; intros [m [H1 H2]]; exists m; auto.
Qed.

Lemma NoDup_map_inj_in (A B : Type) (f : A -> B) (l : list A) (a b : A) :
  NoDup (map f l) -> In a l -> In b l -> f a = f b -> a = b.
Proof.
  induction l as [|x l IH]; simpl; intros Hnd Ha Hb E; [destruct Ha|].
  inversion Hnd as [|x' l' Hx Hl]; subst.
  destruct Ha as [Ha|Ha], Hb as [Hb|Hb]; subst.
  - reflexivity.
  - exfalso. apply Hx. rewrite E. apply in_map. exact Hb.
  - exfalso. apply Hx. rewrite <- E. apply in_map. exact Ha.
  - apply IH; assumption.
Qed.

Section Entries.

Variable w : World.
Hypothesis Hwf : wf w.

Lemma table_id_is_server (i : string) :
  In i (map MessageRow.id (table w)) -> server_id i = true.
Proof.
  intros H. apply in_map_iff in H as [row [E Hrow]]. subst i.
  apply (wf_table_server w Hwf). exact Hrow.
Qed.

Lemma temp_entry (msg : Message) :
  In msg (view w) -> JS.startsWith (id msg) "temp-" = true ->
  exists s, In s (sends w) /\ id msg = send_id s
            /\ ~ In (send_id s) (answered w)
            /\ content msg = send_content s
            /\ sender_id msg = Auth.id (send_user s).
Proof.
  intros Hin Htemp.
  destruct (wf_class w Hwf msg Hin) as [H|[[s [_ [E _]]]|H]].
  - exact H.
  - rewrite E, failed_id_not_temp in Htemp. discriminate Htemp.
  - apply table_id_is_server, server_id_not_temp in H.
    rewrite H in Htemp. discriminate Htemp.
Qed.

Lemma failed_entry (msg : Message) (o : string) :
  In msg (view w) -> id msg = failed_id o -> In o (answered w).
Proof.
  intros Hin E.
  destruct (wf_class w Hwf msg Hin) as [[s [Hs [E1 _]]]|[[s [_ [E1 Ha]]]|H]].
  - pose proof (wf_sends_temp w Hwf s Hs) as T.
    rewrite <- E1, E, failed_id_not_temp in T. discriminate T.
  - rewrite E in E1. apply failed_id_inj in E1. subst o. exact Ha.
  - apply table_id_is_server in H.
    exfalso. exact (server_id_not_failed _ _ H E).
Qed.

Lemma server_entry (msg : Message) :
  In msg (view w) -> server_id (id msg) = true ->
  In (id msg) (map MessageRow.id (table w)).
Proof.
  intros Hin Hs.
  destruct (wf_class w Hwf msg Hin) as [[s [Hin' [E1 _]]]|[[s [_ [E1 _]]]|H]].
  - pose proof (wf_sends_temp w Hwf s Hin') as T.
    rewrite <- E1 in T. apply temp_not_server in T. congruence.
  - exfalso. exact (server_id_not_failed _ _ Hs E1).
  - exact H.
Qed.

Lemma stored_send_is_temp (o : string) (row : MessageRow.t) :
  In (o, row) (stored_for w) -> JS.startsWith o "temp-" = true.
Proof.
  intros H. destruct (wf_stored w Hwf o row H) as [_ [s [Hs [E _]]]].
  subst o. apply (wf_sends_temp w Hwf). exact Hs.
Qed.

Lemma stored_row_is_server (o : string) (row : MessageRow.t) :
  In (o, row) (stored_for w) -> server_id (MessageRow.id row) = true.
Proof.
  intros H. destruct (wf_stored w Hwf o row H) as [Hrow _].
  apply (wf_table_server w Hwf). exact Hrow.
Qed.

End Entries.


(** *** Each step preserves well-formedness *)

Lemma view_submit (env : Env) (c0 : string) (ty : MessageType) (md : Mood)
    (d r now c : string) (u : Auth.user) (h : Hook) :
  open_chat env = Some c -> user env = Some u ->
  JS.truthy (JS.trim c0) = true ->
  messages (sendMessage env c0 ty md d r now h)
  = messages h
    ++ [optimisticMessage c u (profile env) (temp_id d r) (JS.trim c0) ty md now].
Proof.
  intros Hc Hu Ht. unfold sendMessage. rewrite Hc, Hu, Ht. reflexivity.
Qed.

Lemma view_rejected (u : Auth.user) (p : option User.t) (c : string)
    (ty : MessageType) (md : Mood) (o t1 t2 : string) (error : JsError)
    (h : Hook) :
  messages (sendMessage_settled u p c ty md o t1 t2 (Rejected error) h)
  = mark_failed o c (messages h).
Proof.
  unfold sendMessage_settled. destruct (mentions_timeout error); reflexivity.
Qed.

Lemma classified_weaken (w w' : World) (msg : Message) :
  incl (sends w) (sends w') ->
  incl (answered w) (answered w') ->
  incl (map MessageRow.id (table w)) (map MessageRow.id (table w')) ->
  (forall s, In s (sends w) -> id msg = send_id s ->
             ~ In (send_id s) (answered w) -> ~ In (send_id s) (answered w')) ->
  classified w msg -> classified w' msg.
Proof.
  intros Hs Ha Ht Hkeep [[s [H1 [H2 [H3 H4]]]]|[[s [H1 [H2 H3]]]|H]].
  - left. exists s. repeat split; auto. apply H4. apply H4.
  - right. left. exists s. auto.
  - right. right. auto.
Qed.

Lemma wf_submit (env : Env) (c0 : string) (ty : MessageType) (md : Mood)
    (d r now c : string) (u : Auth.user) (w : World) :
  wf w ->
  open_chat env = Some c -> user env = Some u ->
  JS.truthy (JS.trim c0) = true ->
  ~ In (temp_id d r) (map send_id (sends w)) ->
  wf {| hook := sendMessage env c0 ty md d r now (hook w);
        sends := mkSend (temp_id d r) u (profile env) (JS.trim c0) ty md
                 :: sends w;
        answered := answered w;
        table := table w;
        stored_for := stored_for w |}.
Proof.
  intros Hwf Hc Hu Ht Hfresh.
  pose proof (view_submit env c0 ty md d r now c u (hook w) Hc Hu Ht) as Hv.
  set (oid := temp_id d r) in *.
  set (opt := optimisticMessage c u (profile env) oid (JS.trim c0) ty md now) in *.
  assert (Hoid : ~ In oid (ids (view w))).
  { intros H. apply in_ids in H as [msg [Hin E]].
    destruct (temp_entry w Hwf msg Hin) as [s [Hs [E1 _]]].
    - rewrite E. apply startsWith_temp_id.
    - apply Hfresh. rewrite <- E, E1. apply in_map. exact Hs. }
  constructor; unfold view in *; cbn [hook sends answered table stored_for].
  - rewrite Hv. unfold ids. rewrite map_app. simpl.
    apply NoDup_snoc; [apply (wf_nodup w Hwf) | exact Hoid].
  - intros o row Hp Ho Hr. rewrite Hv in Ho, Hr.
    unfold ids in Ho, Hr. rewrite map_app in Ho, Hr. simpl in Ho, Hr.
    apply in_app_or in Ho. apply in_app_or in Hr.
    pose proof (stored_send_is_temp w Hwf o row Hp) as To.
    pose proof (stored_row_is_server w Hwf o row Hp) as Sr.
    destruct (wf_stored w Hwf o row Hp) as [_ [s [Hs [E _]]]].
    destruct Ho as [Ho|[Ho|[]]].
    + destruct Hr as [Hr|[Hr|[]]].
      * exact (wf_pair w Hwf o row Hp Ho Hr).
      * apply server_id_not_temp in Sr. fold oid in Hr. rewrite <- Hr in Sr.
        unfold oid in Sr. rewrite startsWith_temp_id in Sr. discriminate Sr.
    + apply Hfresh. fold oid in Ho. rewrite Ho, <- E. apply in_map. exact Hs.
  - intros msg Hin. rewrite Hv in Hin. apply in_app_or in Hin as [Hin|[Hin|[]]].
    + apply (classified_weaken w); cbn [sends answered table];
        auto using incl_refl, incl_tl.
      apply (wf_class w Hwf). exact Hin.
    + subst msg. left.
      exists (mkSend oid u (profile env) (JS.trim c0) ty md).
      cbn [sends answered send_id send_content send_user].
      split; [left; reflexivity|]. split; [reflexivity|].
      split; [|split; reflexivity].
      intros Ha. apply Hfresh. apply (wf_answered w Hwf). exact Ha.
  - apply (wf_table_nodup w Hwf).
  - apply (wf_table_server w Hwf).
  - intros s [E|Hs].
    + subst s. apply startsWith_temp_id.
    + apply (wf_sends_temp w Hwf). exact Hs.
  - simpl. constructor; [exact Hfresh | apply (wf_sends_nodup w Hwf)].
  - intros o Ha. simpl. right. apply (wf_answered w Hwf). exact Ha.
  - apply (wf_stored_inj w Hwf).
  - intros o row Hp. destruct (wf_stored w Hwf o row Hp) as [H1 [s [H2 H3]]].
    split; [exact H1|]. exists s. split; [right; exact H2 | exact H3].
Qed.


Lemma fresh_row_not_shown (w : World) (i : string) :
  wf w -> server_id i = true -> ~ In i (map MessageRow.id (table w)) ->
  ~ In i (ids (view w)).
Proof.
  intros Hwf Hs Hfresh H. apply in_ids in H as [msg [Hin E]].
  apply Hfresh. rewrite <- E. apply (server_entry w Hwf msg Hin).
  rewrite E. exact Hs.
Qed.

Lemma wf_store (s : Send) (row : MessageRow.t) (w : World) :
  wf w ->
  In s (sends w) ->
  ~ In (send_id s) (map fst (stored_for w)) ->
  server_id (MessageRow.id row) = true ->
  ~ In (MessageRow.id row) (map MessageRow.id (table w)) ->
  MessageRow.content row = send_content s ->
  MessageRow.sender_id row = Auth.id (send_user s) ->
  wf {| hook := hook w;
        sends := sends w;
        answered := answered w;
        table := row :: table w;
        stored_for := (send_id s, row) :: stored_for w |}.
Proof.
  intros Hwf Hs Hnew Hsrv Hfresh Hc Hu.
  assert (Hold : forall o r, In (o, r) (stored_for w) -> MessageRow.id r <> MessageRow.id row).
  { intros o r Hp E. apply Hfresh. rewrite <- E. apply in_map.
    apply (wf_stored w Hwf o r Hp). }
  constructor; unfold view in *; cbn [hook sends answered table stored_for].
  - apply (wf_nodup w Hwf).
  - intros o r [E|Hp] Ho Hr.
    + inversion E; subst o r.
      exact (fresh_row_not_shown w _ Hwf Hsrv Hfresh Hr).
    + exact (wf_pair w Hwf o r Hp Ho Hr).
  - intros msg Hin.
    apply (classified_weaken w); cbn [sends answered table];
      auto using incl_refl.
    + simpl. apply incl_tl, incl_refl.
    + apply (wf_class w Hwf). exact Hin.
  - simpl. constructor; [exact Hfresh | apply (wf_table_nodup w Hwf)].
  - intros r [E|Hr]; [subst r; exact Hsrv | apply (wf_table_server w Hwf); exact Hr].
  - apply (wf_sends_temp w Hwf).
  - apply (wf_sends_nodup w Hwf).
  - apply (wf_answered w Hwf).
  - intros o1 o2 r1 r2 [E1|H1] [E2|H2] E.
    + inversion E1; inversion E2; subst. reflexivity.
    + inversion E1; subst. exfalso. apply (Hold o2 r2 H2). symmetry. exact E.
    + inversion E2; subst. exfalso. apply (Hold o1 r1 H1). exact E.
    + exact (wf_stored_inj w Hwf o1 o2 r1 r2 H1 H2 E).
  - intros o r [E|Hp].
    + inversion E; subst o r. split; [left; reflexivity|].
      exists s. auto.
    + destruct (wf_stored w Hwf o r Hp) as [H1 H2].
      split; [right; exact H1 | exact H2].
Qed.

Lemma wf_store_other (row : MessageRow.t) (w : World) :
  wf w ->
  server_id (MessageRow.id row) = true ->
  ~ In (MessageRow.id row) (map MessageRow.id (table w)) ->
  wf {| hook := hook w;
        sends := sends w;
        answered := answered w;
        table := row :: table w;
        stored_for := stored_for w |}.
Proof.
  intros Hwf Hsrv Hfresh.
  constructor; unfold view in *; cbn [hook sends answered table stored_for].
  - apply (wf_nodup w Hwf).
  - apply (wf_pair w Hwf).
  - intros msg Hin.
    apply (classified_weaken w); cbn [sends answered table];
      auto using incl_refl.
    + simpl. apply incl_tl, incl_refl.
    + apply (wf_class w Hwf). exact Hin.
  - simpl. constructor; [exact Hfresh | apply (wf_table_nodup w Hwf)].
  - intros r [E|Hr]; [subst r; exact Hsrv | apply (wf_table_server w Hwf); exact Hr].
  - apply (wf_sends_temp w Hwf).
  - apply (wf_sends_nodup w Hwf).
  - apply (wf_answered w Hwf).
  - apply (wf_stored_inj w Hwf).
  - intros o r Hp. destruct (wf_stored w Hwf o r Hp) as [H1 H2].
    split; [right; exact H1 | exact H2].
Qed.

(** An entry whose send has not been answered keeps that status when
    another send is answered. *)
Lemma classified_answer (w w' : World) (o : string) (msg : Message) :
  sends w' = sends w -> answered w' = o :: answered w -> table w' = table w ->
  id msg <> o ->
  classified w msg -> classified w' msg.
Proof.
  intros Es Ea Et Hne.
  apply classified_weaken; rewrite ?Es, ?Ea, ?Et; auto using incl_refl, incl_tl.
  intros s _ E Hn [H|H]; [|exact (Hn H)].
  apply Hne. rewrite E. symmetry. exact H.
Qed.

Lemma wf_resolved (s : Send) (row : MessageRow.t) (t1 t2 : string) (w : World) :
  wf w ->
  In s (sends w) ->
  ~ In (send_id s) (answered w) ->
  In (send_id s, row) (stored_for w) ->
  wf {| hook := sendMessage_settled (send_user s) (send_profile s)
                  (send_content s) (send_type s) (send_mood s) (send_id s)
                  t1 t2 (Resolved row) (hook w);
        sends := sends w;
        answered := send_id s :: answered w;
        table := table w;
        stored_for := stored_for w |}.
Proof.
  intros Hwf Hs Hna Hp.
  set (o := send_id s) in *.
  set (m := with_sender row
              (Some (own_sender (send_user s) (send_profile s) t1 t2))).
  assert (Hv : messages (sendMessage_settled (send_user s) (send_profile s)
                           (send_content s) (send_type s) (send_mood s) o
                           t1 t2 (Resolved row) (hook w))
               = replace_by_id o m (view w)) by reflexivity.
  pose proof (stored_send_is_temp w Hwf o row Hp) as To.
  pose proof (stored_row_is_server w Hwf o row Hp) as Sr.
  assert (Hor : o <> MessageRow.id row).
  { intros E. apply server_id_not_temp in Sr. rewrite <- E, To in Sr.
    discriminate Sr. }
  constructor; unfold view in *; cbn [hook sends answered table stored_for];
    rewrite ?Hv.
  - destruct (in_dec string_dec o (ids (messages (hook w)))) as [Hin|Hout].
    + rewrite ids_replace_by_id. apply NoDup_rename.
      * apply (wf_nodup w Hwf).
      * exact (wf_pair w Hwf o row Hp Hin).
    + rewrite replace_by_id_absent by exact Hout. apply (wf_nodup w Hwf).
  - intros o2 row2 Hp2 Ho Hr. rewrite ids_replace_by_id in Ho, Hr.
    pose proof (stored_send_is_temp w Hwf o2 row2 Hp2) as To2.
    pose proof (stored_row_is_server w Hwf o2 row2 Hp2) as Sr2.
    apply in_rename in Ho as [[Ho _]|[Ho Hne]].
    + simpl in Ho. apply server_id_not_temp in Sr.
      rewrite <- Ho, To2 in Sr. discriminate Sr.
    + apply in_rename in Hr as [[Hr _]|[Hr _]].
      * simpl in Hr. apply Hne.
        exact (wf_stored_inj w Hwf o2 o row2 row Hp2 Hp Hr).
      * exact (wf_pair w Hwf o2 row2 Hp2 Ho Hr).
  - intros msg Hin. apply in_replace_by_id in Hin as [[E _]|[Hin Hne]].
    + subst msg. right. right. simpl.
      apply in_map. apply (wf_stored w Hwf o row Hp).
    + apply (classified_answer w _ o); auto.
      apply (wf_class w Hwf). exact Hin.
  - apply (wf_table_nodup w Hwf).
  - apply (wf_table_server w Hwf).
  - apply (wf_sends_temp w Hwf).
  - apply (wf_sends_nodup w Hwf).
  - intros o' [E|Ha].
    + subst o'. apply in_map. exact Hs.
    + apply (wf_answered w Hwf). exact Ha.
  - apply (wf_stored_inj w Hwf).
  - apply (wf_stored w Hwf).
Qed.

Lemma wf_rejected (s : Send) (error : JsError) (t1 t2 : string) (w : World) :
  wf w ->
  In s (sends w) ->
  ~ In (send_id s) (answered w) ->
  wf {| hook := sendMessage_settled (send_user s) (send_profile s)
                  (send_content s) (send_type s) (send_mood s) (send_id s)
                  t1 t2 (Rejected error) (hook w);
        sends := sends w;
        answered := send_id s :: answered w;
        table := table w;
        stored_for := stored_for w |}.
Proof.
  intros Hwf Hs Hna.
  set (o := send_id s) in *.
  pose proof (view_rejected (send_user s) (send_profile s) (send_content s)
                (send_type s) (send_mood s) o t1 t2 error (hook w)) as Hv.
  assert (Hfo : ~ In (failed_id o) (ids (view w))).
  { intros H. apply in_ids in H as [msg [Hin E]].
    apply Hna. exact (failed_entry w Hwf msg o Hin E). }
  constructor; unfold view in *; cbn [hook sends answered table stored_for];
    rewrite ?Hv.
  - rewrite ids_mark_failed. apply NoDup_rename;
      [apply (wf_nodup w Hwf) | exact Hfo].
  - intros o2 row2 Hp2 Ho Hr. rewrite ids_mark_failed in Ho, Hr.
    pose proof (stored_send_is_temp w Hwf o2 row2 Hp2) as To2.
    pose proof (stored_row_is_server w Hwf o2 row2 Hp2) as Sr2.
    apply in_rename in Ho as [[Ho _]|[Ho Hne]].
    + rewrite Ho, failed_id_not_temp in To2. discriminate To2.
    + apply in_rename in Hr as [[Hr _]|[Hr _]].
      * exact (server_id_not_failed _ _ Sr2 Hr).
      * exact (wf_pair w Hwf o2 row2 Hp2 Ho Hr).
  - intros msg Hin. apply in_mark_failed in Hin as [[y [Hy [E1 E2]]]|[Hin Hne]].
    + subst msg. right. left. exists s. cbn [answered sends as_failed id].
      split; [exact Hs|]. split; [reflexivity|]. left. reflexivity.
    + apply (classified_answer w _ o); auto.
      apply (wf_class w Hwf). exact Hin.
  - apply (wf_table_nodup w Hwf).
  - apply (wf_table_server w Hwf).
  - apply (wf_sends_temp w Hwf).
  - apply (wf_sends_nodup w Hwf).
  - intros o' [E|Ha].
    + subst o'. apply in_map. exact Hs.
    + apply (wf_answered w Hwf). exact Ha.
  - apply (wf_stored_inj w Hwf).
  - apply (wf_stored w Hwf).
Qed.


Lemma wf_notified (row : MessageRow.t) (sender : option User.t) (w : World) :
  wf w ->
  In row (table w) ->
  wf {| hook := subscribeToMessages_insert row sender (hook w);
        sends := sends w;
        answered := answered w;
        table := table w;
        stored_for := stored_for w |}.
Proof.
  intros Hwf Hrow.
  set (m := with_sender row sender).
  assert (Hv : messages (subscribeToMessages_insert row sender (hook w))
               = merge_insert m (view w)) by reflexivity.
  pose proof (wf_table_server w Hwf row Hrow) as Srow.
  constructor; unfold view in *; cbn [hook sends answered table stored_for];
    rewrite ?Hv.
  - apply NoDup_ids_merge_insert. apply (wf_nodup w Hwf).
  - intros o2 row2 Hp2 Ho Hr.
    pose proof (stored_send_is_temp w Hwf o2 row2 Hp2) as To2.
    destruct (wf_stored w Hwf o2 row2 Hp2) as [Hrow2 [s2 [Hs2 [E2 [Ec Eu]]]]].
    apply in_ids in Ho as [msg [Hin Eo]].
    apply in_merge_insert in Hin as [Hin|[Hin Htwin]].
    { subst msg. simpl in Eo. apply server_id_not_temp in Srow.
      rewrite Eo, To2 in Srow. discriminate Srow. }
    assert (Ho : In o2 (ids (messages (hook w)))).
    { apply in_ids. exists msg. auto. }
    apply in_ids in Hr as [msg2 [Hin2 Er]].
    apply in_merge_insert in Hin2 as [Hin2|[Hin2 _]].
    + subst msg2. simpl in Er.
      assert (Erow : row = row2).
      { apply (NoDup_map_inj_in _ _ MessageRow.id (table w));
          [apply (wf_table_nodup w Hwf) | exact Hrow | exact Hrow2 |].
        exact Er. }
      subst row2.
      destruct (temp_entry w Hwf msg Hin) as [s [Hs [E1 [_ [E3 E4]]]]].
      { rewrite Eo. exact To2. }
      assert (Es : s = s2).
      { apply (NoDup_map_inj_in _ _ send_id (sends w));
          [apply (wf_sends_nodup w Hwf) | exact Hs | exact Hs2 |].
        congruence. }
      subst s2.
      unfold is_optimistic_twin in Htwin.
      rewrite Eo, To2 in Htwin. simpl in Htwin.
      rewrite E3, E4, Ec, Eu, !String.eqb_refl in Htwin.
      discriminate Htwin.
    + apply (wf_pair w Hwf o2 row2 Hp2 Ho).
      apply in_ids. exists msg2. auto.
  - intros msg Hin. apply in_merge_insert in Hin as [Hin|[Hin _]].
    + subst msg. right. right. simpl. apply in_map. exact Hrow.
    + apply (classified_weaken w); cbn [sends answered table];
        auto using incl_refl.
      apply (wf_class w Hwf). exact Hin.
  - apply (wf_table_nodup w Hwf).
  - apply (wf_table_server w Hwf).
  - apply (wf_sends_temp w Hwf).
  - apply (wf_sends_nodup w Hwf).
  - apply (wf_answered w Hwf).
  - apply (wf_stored_inj w Hwf).
  - apply (wf_stored w Hwf).
Qed.

Lemma step_preserves_wf (w w' : World) : wf w -> step w w' -> wf w'.
Proof.
  intros Hwf Hstep. destruct Hstep.
  - eapply wf_submit; eassumption.
  - apply wf_store; assumption.
  - apply wf_store_other; assumption.
  - apply wf_resolved; assumption.
  - apply wf_rejected; assumption.
  - apply wf_notified; assumption.
Qed.

Lemma initial_wf (w : World) : initial w -> wf w.
Proof.
  intros [Es [Ea [Ep [Hnd [Hsrv [Hv Hincl]]]]]].
  constructor; rewrite ?Es, ?Ea, ?Ep; simpl; try (intros; contradiction); auto.
  - intros msg Hin. right. right. apply Hincl. apply in_map. exact Hin.
  - constructor.
Qed.

Lemma reachable_wf (w : World) : reachable w -> wf w.
Proof.
  induction 1 as [w Hi | w w' _ IH Hstep].
  - apply initial_wf. exact Hi.
  - exact (step_preserves_wf w w' IH Hstep).
Qed.

(** The four mutations of a send keep the invariant.  In every world
    reached from a freshly loaded conversation by optimistic appends (with
    an identifier not handed out before), answers to create requests,
    stores of the service (under identifiers of its own) and realtime insert
    notifications, in any order, the identifiers of the visible list are
    pairwise distinct, and no provisional entry is visible together with
    the row stored for its send. *)
Theorem send_steps_keep_single_representative (w : World) :
  reachable w -> single_representative w.
Proof.
  intros H. apply reachable_wf in H. split.
  - apply (wf_nodup w H).
  - intros o row Hp [Ho Hr]. exact (wf_pair w H o row Hp Ho Hr).
Qed.


Lemma hello_world_reachable : reachable world_answered.
Proof.
  assert (R0 : reachable world0).
  { apply reachable_initial. unfold initial, world0, view. simpl.
    repeat split; try constructor; try (intros ? []). }
  assert (R1 : reachable world_submitted).
  { apply (reachable_step world0); [exact R0|].
    apply (step_submit env1 "hello" text neutral "1" "0.5"
             "2025-07-05T10:00:00.000Z" "c1" alice world0);
      try reflexivity. intros []. }
  assert (R2 : reachable world_stored).
  { apply (reachable_step world_submitted); [exact R1|].
    apply (step_store hello_send hello_row world_submitted);
      try reflexivity; simpl; auto. }
  assert (R3 : reachable world_notified).
  { apply (reachable_step world_stored); [exact R2|].
    apply (step_notified hello_row None world_stored). left. reflexivity. }
  apply (reachable_step world_notified); [exact R3|].
  apply (step_resolved hello_send hello_row "t1" "t2" world_notified).
  - left. reflexivity.
  - intros [].
  - left. reflexivity.
Qed.

Lemma send_steps_keep_single_representative_witness :
  ids (view world_notified) = ["m1"]
  /\ ids (view world_answered) = ["m1"]
  /\ single_representative world_answered.
Proof.
  split; [reflexivity | split; [reflexivity|]].
  apply send_steps_keep_single_representative. exact hello_world_reachable.
Defined.

(** C1, where the code leaves the invariant.  The create request of
    "hello" timed out and the automatic retry is awaiting its own create
    request, the entry being tagged [failed-].  The realtime notification
    of the row stored for the retry is merged before the retry is answered:
    the merge looks for [temp-] entries only, keeps the failed entry and
    appends the row.  The answer of the retry then replaces the failed
    entry by the same row, and the visible list holds the identifier "m1"
    twice.  With the answer merged first the list holds it once. *)
Theorem retry_answer_after_notification_duplicates :
  let notified := subscribeToMessages_insert hello_row None hello_retrying in
  let answered :=
    retryMessage_settled alice None hello_retry_args "t1" "t2"
      (Resolved hello_row) notified in
  let answered_first :=
    subscribeToMessages_insert hello_row None
      (retryMessage_settled alice None hello_retry_args "t1" "t2"
         (Resolved hello_row) hello_retrying) in
  ids (messages hello_retrying) = ["failed-temp-1-0.5"]
  /\ ids (messages notified) = ["failed-temp-1-0.5"; "m1"]
  /\ ids (messages answered) = ["m1"; "m1"]
  /\ ~ NoDup (ids (messages answered))
  /\ ids (messages answered_first) = ["m1"].
Proof.
  repeat split.
  intros H. inversion H as [|x l Hx Hl]; subst.
  apply Hx. left. reflexivity.
Qed.


(** * Further properties of the hooks *)

(** ** Loading a conversation *)

Lemma ascending_snoc (l : list Message) (x : Message) :
  ascending l = true ->
  (forall y, last l x = y -> l <> [] ->
             String.leb (created_at y) (created_at x) = true) ->
  ascending (l ++ [x]) = true.
Proof.
  induction l as [|a l IH]; intros Hl Hlast; [reflexivity|].
  destruct l as [|b l'].
  - simpl. rewrite (Hlast a eq_refl); [reflexivity | discriminate].
  - change (ascending ((a :: b :: l') ++ [x]))
      with (String.leb (created_at a) (created_at b)
            && ascending ((b :: l') ++ [x])).
    change (ascending (a :: b :: l'))
      with (String.leb (created_at a) (created_at b) && ascending (b :: l'))
      in Hl.
    apply andb_true_iff in Hl as [Hab Hl]. rewrite Hab. simpl andb.
    apply IH; [exact Hl|].
    intros y Hy _. apply Hlast; [exact Hy | discriminate].
Qed.

Lemma rev_map_last (senders : option (list User.t)) (a : MessageRow.t)
    (l : list MessageRow.t) (d : Message) :
  last (rev (messagesWithSenders senders (a :: l))) d
  = with_sender a (find_sender senders (MessageRow.sender_id a)).
Proof.
  unfold messagesWithSenders. simpl. apply last_last.
Qed.

Lemma newest_first_reversed (senders : option (list User.t))
    (data : list MessageRow.t) :
  newest_first data = true ->
  ascending (rev (messagesWithSenders senders data)) = true.
Proof.
  induction data as [|a l IH]; intros H; [reflexivity|].
  destruct l as [|b l'].
  - reflexivity.
  - change (newest_first (a :: b :: l'))
      with (String.leb (MessageRow.created_at b) (MessageRow.created_at a)
            && newest_first (b :: l')) in H.
    apply andb_true_iff in H as [Hba Hl].
    change (rev (messagesWithSenders senders (a :: b :: l')))
      with (rev (messagesWithSenders senders (b :: l'))
            ++ [with_sender a (find_sender senders (MessageRow.sender_id a))]).
    apply ascending_snoc; [apply IH; exact Hl|].
    intros y Hy _. rewrite rev_map_last in Hy. subst y. exact Hba.
Qed.

Lemma chronological_rev (senders : option (list User.t)) (data : list MessageRow.t) :
  chronological senders data = rev (messagesWithSenders senders data).
Proof. destruct data; reflexivity. Qed.

Lemma find_sender_id (senders : option (list User.t)) (sid : string)
    (s : User.t) :
  find_sender senders sid = Some s -> User.id s = sid.
Proof.
  destruct senders as [l|]; simpl; [|discriminate].
  intros H. apply find_some in H as [_ H].
  apply String.eqb_eq. exact H.
Qed.

(** X1.  A conversation is shown oldest first.  When the rows a query answers
    are ordered newest first, the visible list after the answer holds the
    same rows in the opposite order, ascending by creation timestamp, and
    a sender summary attached to a message is the one of its own sender. *)
Theorem load_shows_oldest_first (c : string) (data : list MessageRow.t)
    (senders : option (list User.t)) (h : Hook) :
  newest_first data = true ->
  let shown := messages (fetchMessages_settled c (Resolved data) senders h) in
  ids shown = rev (map MessageRow.id data)
  /\ ascending shown = true
  /\ (forall m s, In m shown -> sender m = Some s -> User.id s = sender_id m).
Proof.
  intros H shown. subst shown. simpl. rewrite chronological_rev.
  split; [|split].
  - unfold ids, messagesWithSenders. rewrite <- map_rev, map_map.
    rewrite map_rev. reflexivity.
  - apply newest_first_reversed. exact H.
  - intros m s Hin Hs. apply in_rev in Hin.
    unfold messagesWithSenders in Hin. apply in_map_iff in Hin as [r [E _]].
    subst m. simpl in *. apply find_sender_id in Hs. exact Hs.
Qed.

Lemma load_shows_oldest_first_witness :
  let shown :=
    messages (fetchMessages_settled "A"
                (Resolved (Store.select_messages two_chats "A" 50)) None
                hello_sent) in
  ids shown = ["a1"; "a2"] /\ ascending shown = true.
Proof.
  destruct (load_shows_oldest_first "A" (Store.select_messages two_chats "A" 50)
              None hello_sent eq_refl) as [H1 [H2 _]].
  split; [exact H1 | exact H2].
Defined.


Lemma queried_app (o1 o2 : list Effect) :
  queried (o1 ++ o2) = queried o1 ++ queried o2.
Proof.
  induction o1 as [|[b|ms k|c n] o1 IH]; simpl; rewrite ?IH; reflexivity.
Qed.

(** X2.  A load that fails ends with an empty list.  Whatever the errors, once
    the query of [fetchMessages] has failed, and its fallback too when one
    is issued, the visible list is empty; the fallback, limited to 30 rows
    of the same conversation, is the only further query, and it is issued
    exactly for errors that mention a timeout or carry code 57014.  No
    create request and no timer result from a failed load. *)
Theorem failed_load_clears (c : string) (e1 e2 : JsError)
    (senders : option (list User.t)) (h : Hook) :
  let h' := failed_load c e1 e2 senders h in
  messages h' = []
  /\ queried (outbox h')
     = queried (outbox h) ++ (if is_query_timeout e1 then [(c, 30)] else [])
  /\ created (outbox h') = created (outbox h)
  /\ scheduled (outbox h') = scheduled (outbox h).
Proof.
  unfold failed_load, fetchMessages_settled, is_query_timeout.
  destruct (mentions_timeout e1
            || match code e1 with Some k => k =? "57014" | None => false end);
    simpl; rewrite ?queried_app, ?created_app, ?scheduled_app; simpl;
    rewrite ?app_nil_r; auto.
Qed.

(** ** A send from submission to its end *)


Lemma mark_failed_app (o c : string) (l1 l2 : list Message) :
  mark_failed o c (l1 ++ l2) = mark_failed o c l1 ++ mark_failed o c l2.
Proof. unfold mark_failed. apply map_app. Qed.

Lemma map_if_absent (fid : string) (g : Message -> Message)
    (l : list Message) :
  ~ In fid (ids l) ->
  map (fun msg => if id msg =? fid then g msg else msg) l = l.
Proof.
  unfold ids. induction l as [|x l IH]; cbn [map]; [reflexivity|].
  intros H. destruct (String.eqb_spec (id x) fid) as [E|E].
  - exfalso. apply H. left. exact E.
  - rewrite IH; [reflexivity|]. intros H1. apply H. right. exact H1.
Qed.

Lemma mark_retrying_absent (fid c : string) (l : list Message) :
  ~ In fid (ids l) -> mark_retrying fid c l = l.
Proof. apply map_if_absent. Qed.

Lemma mark_permanent_absent (fid c : string) (l : list Message) :
  ~ In fid (ids l) -> mark_permanent fid c l = l.
Proof. apply map_if_absent. Qed.







(** ** What the answers and the merge leave alone *)

Lemma nth_error_map_if_miss (fid : string) (g : Message -> Message)
    (l : list Message) (j : nat) (other : Message) :
  nth_error l j = Some other -> id other <> fid ->
  nth_error (map (fun msg => if id msg =? fid then g msg else msg) l) j
  = Some other.
Proof.
  intros Hj Hne. rewrite nth_error_map, Hj. simpl.
  apply String.eqb_neq in Hne. rewrite Hne. reflexivity.
Qed.

(** X5.  The answers touch one entry.  Whatever the answer to the create request
    of a send or of its retry, and when the retry starts, the visible list
    keeps its length, and every entry that carries neither the optimistic
    identifier of the send nor its [failed-] form stays where it is,
    unchanged. *)
Theorem answers_touch_one_entry (env : Env) (u : Auth.user)
    (p : option User.t) (c : string) (ty : MessageType) (md : Mood)
    (oid t1 t2 : string) (r1 r2 : Reply MessageRow.t) (h : Hook) (j : nat)
    (other : Message) :
  nth_error (messages h) j = Some other ->
  id other <> oid ->
  id other <> failed_id oid ->
  let k := retry_args c ty md oid in
  let answered := sendMessage_settled u p c ty md oid t1 t2 r1 h in
  let retrying := retryMessage env k h in
  let retried := retryMessage_settled u p k t1 t2 r2 h in
  nth_error (messages answered) j = Some other
  /\ nth_error (messages retrying) j = Some other
  /\ nth_error (messages retried) j = Some other
  /\ length (messages answered) = length (messages h)
  /\ length (messages retrying) = length (messages h)
  /\ length (messages retried) = length (messages h).
Proof.
  intros Hj Ho Hf k answered retrying retried.
  assert (A : messages answered
              = map (fun msg =>
                       if id msg =? oid
                       then match r1 with
                            | Resolved data =>
                                with_sender data (Some (own_sender u p t1 t2))
                            | Rejected _ => as_failed oid c msg
                            end
                       else msg) (messages h)).
  { unfold answered. destruct r1 as [data|e].
    - reflexivity.
    - rewrite view_rejected. reflexivity. }
  assert (B : messages retrying = messages h
              \/ messages retrying
                 = map (fun msg =>
                          if id msg =? failed_id oid
                          then set_content ("🔄 Retrying: " ++ c)%string msg
                          else msg) (messages h)).
  { unfold retrying, retryMessage.
    destruct (open_chat env); [destruct (user env)|]; auto. }
  assert (C : messages retried
              = map (fun msg =>
                       if id msg =? failed_id oid
                       then match r2 with
                            | Resolved data =>
                                with_sender data (Some (own_sender u p t1 t2))
                            | Rejected _ =>
                                set_content
                                  ("💀 Failed permanently: " ++ c)%string msg
                            end
                       else msg) (messages h)).
  { unfold retried. destruct r2; reflexivity. }
  rewrite A, C. rewrite !length_map.
  split; [apply nth_error_map_if_miss; assumption|].
  split; [destruct B as [B|B]; rewrite B;
          [exact Hj | apply nth_error_map_if_miss; assumption]|].
  split; [apply nth_error_map_if_miss; assumption|].
  split; [reflexivity|]. split; [|reflexivity].
  destruct B as [B|B]; rewrite B; [reflexivity | apply length_map].
Qed.

Lemma answers_touch_one_entry_witness :
  let h := subscribeToMessages_insert first_row None hello_sent in
  let failed :=
    sendMessage_settled alice None "hello" text neutral "temp-1-0.5" "t1" "t2"
      (Rejected race_timeout) h in
  ids (messages h) = ["temp-1-0.5"; "m1"]
  /\ nth_error (messages failed) 1 = nth_error (messages h) 1
  /\ length (messages failed) = 2.
Proof.
  intros h failed.
  assert (H1 : id (with_sender first_row None) <> "temp-1-0.5") by discriminate.
  assert (H2 : id (with_sender first_row None) <> failed_id "temp-1-0.5")
    by discriminate.
  destruct (answers_touch_one_entry env1 alice None "hello" text neutral
              "temp-1-0.5" "t1" "t2" (Rejected race_timeout)
              (Rejected race_timeout) h 1 (with_sender first_row None)
              eq_refl H1 H2) as [Ha [_ [_ [Hl _]]]].
  split; [reflexivity | split; [exact Ha | exact Hl]].
Defined.

(** X6.  The merge loses provisional twins only.  After an insert notification
    is merged, the list holds an entry with the identifier of the row;
    every entry that is not a provisional entry with the sender and content
    of the row is still in the list; and the list holds nothing but those
    entries and the row. *)
Theorem merge_insert_membership (data : MessageRow.t) (s : option User.t) (h : Hook)
    (x : Message) :
  let m := with_sender data s in
  let merged := messages (subscribeToMessages_insert data s h) in
  has_id (MessageRow.id data) merged = true
  /\ (In x (messages h) -> is_optimistic_twin m x = false -> In x merged)
  /\ (In x merged ->
      x = m \/ (In x (messages h) /\ is_optimistic_twin m x = false)).
Proof.
  intros m merged. subst merged.
  cbn [subscribeToMessages_insert setMessages messages].
  fold m. split; [|split].
  - destruct (merge_insert_cases m (messages h)) as [[He E]|[_ E]]; rewrite E.
    + exact He.
    + rewrite has_id_app. unfold has_id at 2. simpl.
      rewrite String.eqb_refl, orb_true_r. reflexivity.
  - intros Hin Hk.
    assert (F : In x (filter (fun msg => negb (is_optimistic_twin m msg))
                        (messages h))).
    { apply filter_In. rewrite Hk. auto. }
    destruct (merge_insert_cases m (messages h)) as [[_ E]|[_ E]]; rewrite E.
    + exact F.
    + apply in_or_app. left. exact F.
  - apply in_merge_insert.
Qed.

Lemma merge_insert_membership_witness :
  let two := sendMessage env1 "hello" text neutral "2" "0.25"
               "2025-07-05T10:00:01.000Z" hello_sent in
  ids (messages two) = ["temp-1-0.5"; "temp-2-0.25"]
  /\ ids (messages (subscribeToMessages_insert hello_row None two)) = ["m1"]
  /\ has_id "m1" (messages (subscribeToMessages_insert hello_row None two))
     = true.
Proof.
  intros two.
  destruct (merge_insert_membership hello_row None two
              (with_sender hello_row None)) as [H _].
  split; [reflexivity | split; [reflexivity | exact H]].
Defined.


(** ** Outbound typing signals *)

Lemma well_spaced_snoc (l : list (Z * TypingPayload))
    (a b : Z * TypingPayload) :
  well_spaced (l ++ [a]) ->
  (is_typing (snd b) = true -> (fst a + 500 <= fst b)%Z) ->
  well_spaced ((l ++ [a]) ++ [b]).
Proof.
  induction l as [|x l IH]; intros Hl Hb.
  - simpl. auto.
  - destruct l as [|y l'].
    + simpl in *. destruct Hl as [Hxa _]. auto.
    + change (well_spaced (x :: (y :: l') ++ [a])) in Hl.
      change (well_spaced (x :: ((y :: l') ++ [a]) ++ [b])).
      simpl in Hl. destruct Hl as [Hxy Hl]. simpl. split; [exact Hxy|].
      apply IH; assumption.
Qed.

Lemma sendTypingIndicator_tracked (env : Env) (now : Z) (typing : bool)
    (st : Composer) :
  log_tracked st -> log_tracked (sendTypingIndicator env now typing st).
Proof.
  intros [Hw Hl]. unfold sendTypingIndicator.
  destruct (open_chat env) as [c|]; [|split; assumption].
  destruct (user env) as [u|]; [|split; assumption].
  destruct (profile env) as [p|]; [|split; assumption].
  destruct (typing && (now - lastTypingSignal st <? 500)%Z) eqn:Hthr;
    [split; assumption|].
  unfold log_tracked. cbn [broadcasts lastTypingSignal]. split.
  - destruct Hl as [E|[l [a [E Ea]]]]; rewrite E.
    + simpl. exact I.
    + rewrite E in Hw. apply well_spaced_snoc; [exact Hw|].
      cbn [snd fst is_typing]. intros Hty. subst typing.
      simpl in Hthr. apply Z.ltb_ge in Hthr. lia.
  - right. eexists. eexists. split; reflexivity.
Qed.

Lemma composer_step_tracked (env : Env) (e : Z * ComposerEvent)
    (st : Composer) :
  log_tracked st -> log_tracked (composer_step env e st).
Proof.
  intros H.
  assert (H1 : log_tracked (idle_until env (fst e) st)).
  { unfold idle_until. destruct (typingTimeout st) as [due|]; [|exact H].
    destruct (due <=? fst e)%Z; [|exact H].
    apply sendTypingIndicator_tracked. exact H. }
  unfold composer_step. destruct (snd e).
  - unfold handleTyping.
    destruct (isTyping (idle_until env (fst e) st)); [exact H1|].
    change (log_tracked
              (sendTypingIndicator env (fst e) true
                 (setIsTyping true (idle_until env (fst e) st)))).
    apply sendTypingIndicator_tracked. exact H1.
  - unfold stopTyping.
    destruct (isTyping (set_typingTimeout None (idle_until env (fst e) st)));
      [|exact H1].
    apply sendTypingIndicator_tracked. exact H1.
Qed.

(** X9.  Typing signals are throttled.  Whatever the user does from mount on
    (keystrokes and stops at any times, the idle timer running in
    between), every typing=true signal the hook sends comes at least 500 ms
    after the signal it sent before. *)
Theorem typing_signals_spaced (env : Env) (evs : list (Z * ComposerEvent)) :
  well_spaced (broadcasts (composer_run env evs composer0)).
Proof.
  assert (G : forall st, log_tracked st ->
                         log_tracked (composer_run env evs st)).
  { induction evs as [|e evs IH]; intros st H; [exact H|].
    simpl. apply IH. apply composer_step_tracked. exact H. }
  apply G. split; [exact I | left; reflexivity].
Qed.


(** X10.  Typing ends by itself.  With a conversation, a user and a profile at
    hand, a keystroke handled at time [now] and followed by no other event
    leaves the hook, once the clock has reached [now + 1000] ms, not
    typing, with no idle timer pending, and with a typing=false signal of
    the user sent at [now + 1000] as the last broadcast. *)
Theorem idle_keystroke_ends_typing (env : Env) (c : string) (u : Auth.user)
    (p : User.t) (now later : Z) (st : Composer) :
  open_chat env = Some c ->
  user env = Some u ->
  profile env = Some p ->
  (now + 1000 <= later)%Z ->
  let typed := handleTyping env now st in
  let idle := idle_until env later typed in
  isTyping typed = true
  /\ isTyping idle = false
  /\ typingTimeout idle = None
  /\ broadcasts idle
     = broadcasts typed
       ++ [((now + 1000)%Z,
            {| user_id := Auth.id u; user_name := User.name p;
               user_avatar := User.avatar_url p; is_typing := false |})].
Proof.
  intros Hc Hu Hp Hle typed idle.
  assert (Ht : isTyping typed = true).
  { unfold typed, handleTyping. cbn [isTyping set_typingTimeout].
    destruct (isTyping st) eqn:E; [exact E|].
    unfold sendTypingIndicator. rewrite Hc, Hu, Hp.
    destruct (true && (now - lastTypingSignal (setIsTyping true st) <? 500)%Z);
      reflexivity. }
  assert (Hd : typingTimeout typed = Some (now + 1000)%Z) by reflexivity.
  unfold idle, idle_until. rewrite Hd.
  apply Z.leb_le in Hle. rewrite Hle.
  unfold typingTimeout_fires, sendTypingIndicator. rewrite Hc, Hu, Hp.
  cbn [andb]. cbn [isTyping typingTimeout broadcasts setIsTyping
                   set_typingTimeout].
  auto.
Qed.

Lemma idle_keystroke_ends_typing_witness :
  let typed := handleTyping env_typing 10000 composer0 in
  let idle := idle_until env_typing 11000 typed in
  map (fun b => (fst b, is_typing (snd b))) (broadcasts typed)
  = [(10000%Z, true)]
  /\ isTyping idle = false
  /\ map (fun b => (fst b, is_typing (snd b))) (broadcasts idle)
     = [(10000%Z, true); (11000%Z, false)].
Proof.
  intros typed idle.
  assert (Hle : (10000 + 1000 <= 11000)%Z) by lia.
  destruct (idle_keystroke_ends_typing env_typing "c1" alice alice_profile
              10000 11000 composer0 eq_refl eq_refl eq_refl Hle)
    as [_ [H2 [_ H4]]].
  split; [reflexivity | split; [exact H2|]].
  fold typed idle in H4. rewrite H4. reflexivity.
Defined.

Lemma handleTyping_while_typing (env : Env) (ts : list Z) (st : Composer) :
  isTyping st = true ->
  broadcasts (fold_left (fun acc t => handleTyping env t acc) ts st)
  = broadcasts st
  /\ isTyping (fold_left (fun acc t => handleTyping env t acc) ts st) = true.
Proof.
  revert st. induction ts as [|t ts IH]; intros st H; [auto|].
  simpl.
  assert (E : handleTyping env t st = set_typingTimeout (Some (t + 1000)%Z) st).
  { unfold handleTyping. rewrite H. reflexivity. }
  rewrite E. apply (IH (set_typingTimeout (Some (t + 1000)%Z) st)). exact H.
Qed.

(** X11.  A suppressed start is not made up for.  When the user is not typing
    and starts to type less than 500 ms after the last signal, the hook
    marks the user as typing and sends nothing; however many keystrokes
    follow before the idle timer runs, no signal is sent for them
    either. *)
Theorem throttled_start_stays_silent (env : Env) (now : Z) (ts : list Z)
    (st : Composer) :
  isTyping st = false ->
  (now - lastTypingSignal st < 500)%Z ->
  let started := handleTyping env now st in
  let typed := fold_left (fun acc t => handleTyping env t acc) ts started in
  isTyping started = true
  /\ isTyping typed = true
  /\ broadcasts started = broadcasts st
  /\ broadcasts typed = broadcasts st.
Proof.
  intros Hn Hlt started typed.
  assert (S : isTyping started = true /\ broadcasts started = broadcasts st).
  { unfold started, handleTyping. rewrite Hn.
    cbn [isTyping broadcasts set_typingTimeout].
    unfold sendTypingIndicator.
    destruct (open_chat env); [|auto].
    destruct (user env); [|auto].
    destruct (profile env); [|auto].
    cbn [lastTypingSignal setIsTyping].
    apply Z.ltb_lt in Hlt. rewrite Hlt. auto. }
  destruct S as [S1 S2].
  destruct (handleTyping_while_typing env ts started S1) as [B T].
  fold typed in B, T. rewrite B, S2. auto.
Qed.

Lemma throttled_start_stays_silent_witness :
  let paused := idle_until env_typing 11200 typed_paused in
  let resumed :=
    fold_left (fun acc t => handleTyping env_typing t acc) [11500%Z; 11900%Z]
      (handleTyping env_typing 11200 paused) in
  map (fun b => (fst b, is_typing (snd b))) (broadcasts paused)
  = [(10000%Z, true); (11000%Z, false)]
  /\ isTyping resumed = true
  /\ broadcasts resumed = broadcasts paused.
Proof.
  intros paused resumed.
  assert (Hlt : (11200 - lastTypingSignal paused < 500)%Z)
    by (vm_compute; reflexivity).
  destruct (throttled_start_stays_silent env_typing 11200 [11500%Z; 11900%Z]
              paused eq_refl Hlt) as [_ [H2 [_ H4]]].
  split; [reflexivity | split; [exact H2 | exact H4]].
Defined.


(** X12.  The typing state clears itself.  In every state the hook reaches from
    mount, either the user is not held as typing, or an idle timer is
    pending and the user is no longer held as typing once it has run. *)
Theorem typing_state_clears_itself (env : Env)
    (evs : list (Z * ComposerEvent)) :
  let st := composer_run env evs composer0 in
  isTyping st = false
  \/ exists due, typingTimeout st = Some due
                 /\ isTyping (idle_until env due st) = false.
Proof.
  assert (S : forall typing now st,
             isTyping (sendTypingIndicator env now typing st) = isTyping st).
  { intros typing now st. unfold sendTypingIndicator.
    destruct (open_chat env); [|reflexivity].
    destruct (user env); [|reflexivity].
    destruct (profile env); [|reflexivity].
    destruct (typing && (now - lastTypingSignal st <? 500)%Z); reflexivity. }
  assert (F : forall due st, typingTimeout st = Some due ->
                             isTyping (idle_until env due st) = false).
  { intros due st E. unfold idle_until. rewrite E, Z.leb_refl.
    unfold typingTimeout_fires. rewrite S. reflexivity. }
  assert (G : forall st,
             (isTyping st = true -> typingTimeout st <> None) ->
             let st' := composer_run env evs st in
             isTyping st' = true -> typingTimeout st' <> None).
  { induction evs as [|e evs IH]; intros st H; [exact H|].
    simpl. apply IH. unfold composer_step. destruct (snd e).
    - intros _. discriminate.
    - unfold stopTyping.
      destruct (isTyping (set_typingTimeout None (idle_until env (fst e) st)))
        eqn:E.
      + rewrite S. discriminate.
      + rewrite E. discriminate. }
  intros st.
  destruct (isTyping st) eqn:E; [right | left; reflexivity].
  assert (H : typingTimeout st <> None).
  { apply (G composer0); [discriminate | exact E]. }
  destruct (typingTimeout st) as [due|] eqn:Ed; [|contradiction].
  exists due. split; [reflexivity|]. apply F. exact Ed.
Qed.

(** ** The typing set *)

Lemma NoDup_map_filter (A B : Type) (f : A -> B) (g : A -> bool) (l : list A) :
  NoDup (map f l) -> NoDup (map f (filter g l)).
Proof.
  induction l as [|x l IH]; simpl; intros H; [constructor|].
  inversion H as [|x' l' Hx Hl]; subst.
  destruct (g x); simpl; [|apply IH; exact Hl].
  constructor; [|apply IH; exact Hl].
  intros Hin. apply Hx. apply in_map_iff in Hin as [y [E Hy]].
  apply filter_In in Hy as [Hy _]. rewrite <- E. apply in_map. exact Hy.
Qed.

Lemma in_map_filter (A B : Type) (f : A -> B) (g : A -> bool) (l : list A)
    (b : B) :
  In b (map f (filter g l)) -> In b (map f l).
Proof.
  intros H. apply in_map_iff in H as [y [E Hy]].
  apply filter_In in Hy as [Hy _]. rewrite <- E. apply in_map. exact Hy.
Qed.

Lemma existsb_id_false (uid : string) (users : list TypingUser.t) :
  existsb (fun u => TypingUser.id u =? uid) users = false ->
  ~ In uid (map TypingUser.id users).
Proof.
  induction users as [|x l IH]; simpl; intros H; [intros []|].
  apply orb_false_iff in H as [Hx Hl].
  intros [E|Hin]; [|exact (IH Hl Hin)].
  apply String.eqb_neq in Hx. contradiction.
Qed.

(** X13.  Distinct participants, never the user.  From a mount with nobody
    typing, whatever typing signals arrive and whatever timers run, the
    typing set lists every participant at most once and never lists the
    user themself. *)
Theorem typing_set_distinct (self : string) (evs : list (Z * TypingPayload))
    (now : Z) :
  let t := advance now (deliver_all self evs nobody_typing) in
  NoDup (map TypingUser.id (typingUsers t))
  /\ ~ In self (map TypingUser.id (typingUsers t)).
Proof.
  set (K := fun users : list TypingUser.t =>
              NoDup (map TypingUser.id users)
              /\ ~ In self (map TypingUser.id users)).
  assert (W : forall uid users, K users -> K (without uid users)).
  { intros uid users [H1 H2]. split.
    - apply NoDup_map_filter. exact H1.
    - intros H. apply H2. eapply in_map_filter. exact H. }
  assert (A : forall t' timers users,
             K users -> K (fst (fire_due t' timers users))).
  { intros t' timers. induction timers as [|[due uid] rest IH]; intros users H.
    - exact H.
    - simpl. destruct (due <=? t')%Z.
      + apply IH. apply W. exact H.
      + specialize (IH users H). destruct (fire_due t' rest users). exact IH. }
  assert (A' : forall t' t,
             K (typingUsers t) -> K (typingUsers (advance t' t))).
  { intros t' t H. unfold advance.
    specialize (A t' (expiries t) (typingUsers t) H).
    destruct (fire_due t' (expiries t) (typingUsers t)). exact A. }
  assert (B : forall t' p t,
             K (typingUsers t) ->
             K (typingUsers (useTyping_broadcast self t' p t))).
  { intros t' p t H. unfold useTyping_broadcast.
    destruct (String.eqb_spec (user_id p) self) as [E|E]; [exact H|].
    cbn [typingUsers]. unfold typing_update.
    destruct (is_typing p); [|apply W; exact H].
    destruct (existsb (fun u => TypingUser.id u =? user_id p) (typingUsers t))
      eqn:Ex; [exact H|].
    destruct H as [H1 H2]. unfold K. rewrite map_app. simpl. split.
    - apply NoDup_snoc; [exact H1 | apply existsb_id_false; exact Ex].
    - intros H. apply in_app_or in H as [H|[H|[]]]; [exact (H2 H)|].
      apply E. exact H. }
  assert (C : forall t, K (typingUsers t) ->
                        K (typingUsers (deliver_all self evs t))).
  { induction evs as [|e evs IH]; intros t H; [exact H|].
    simpl. apply IH. unfold deliver. apply B. apply A'. exact H. }
  intros t. apply A'. apply C. split; [constructor | intros []].
Qed.

(** X14.  A refresh does not extend the expiry.  After a typing=true signal of
    another participant received at time [T], whatever signals arrive
    before [T + 3000] ms, further typing=true signals of that participant
    included, the participant is absent from the typing set once the clock
    has reached [T + 3000]: the timer of the first signal is never
    cancelled. *)
Theorem refresh_does_not_extend (self : string) (T : Z) (p : TypingPayload)
    (evs : list (Z * TypingPayload)) (t : TypingHook) :
  user_id p <> self ->
  is_typing p = true ->
  Forall (fun e => (fst e < T + 3000)%Z) evs ->
  shown_typing (user_id p)
    (advance (T + 3000) (deliver_all self evs (deliver self (T, p) t)))
  = false.
Proof.
  intros Hself Hty Hevs.
  set (uid := user_id p). set (due := (T + 3000)%Z).
  assert (H0 : In (due, uid) (expiries (deliver self (T, p) t))).
  { unfold deliver, useTyping_broadcast. cbn [fst snd].
    apply String.eqb_neq in Hself. rewrite Hself. cbn [expiries].
    rewrite Hty. apply in_or_app. right. left. reflexivity. }
  assert (G : forall t', In (due, uid) (expiries t') ->
                         In (due, uid) (expiries (deliver_all self evs t'))).
  { induction evs as [|e evs IH]; intros t' H; [exact H|].
    inversion Hevs as [|e' evs' He Hrest]; subst.
    simpl. apply (IH Hrest).
    unfold deliver.
    assert (Hk : In (due, uid) (expiries (advance (fst e) t'))).
    { unfold advance.
      pose proof (fire_due_keeps uid (fst e) due (expiries t') (typingUsers t')
                    H He) as Kp.
      destruct (fire_due (fst e) (expiries t') (typingUsers t')). exact Kp. }
    unfold useTyping_broadcast.
    destruct (user_id (snd e) =? self); [exact Hk|].
    cbn [expiries]. destruct (is_typing (snd e)); [|exact Hk].
    apply in_or_app. left. exact Hk. }
  specialize (G _ H0).
  unfold shown_typing, advance.
  pose proof (fire_due_removes uid due due _
                (typingUsers (deliver_all self evs (deliver self (T, p) t)))
                G (Z.le_refl due)) as R.
  destruct (fire_due due _ _). exact R.
Qed.

Lemma refresh_does_not_extend_witness :
  let refreshed :=
    deliver_all "u1" [(2500%Z, carol_types)]
      (deliver "u1" (400%Z, carol_types) nobody_typing) in
  map TypingUser.name (typingUsers (advance 3399 refreshed)) = ["Carol"]
  /\ shown_typing "u3" (advance 3400 refreshed) = false.
Proof.
  intros refreshed.
  assert (Hself : user_id carol_types <> "u1") by discriminate.
  assert (Hevs : Forall (fun e : Z * TypingPayload => (fst e < 400 + 3000)%Z)
                   [(2500%Z, carol_types)]).
  { constructor; [simpl; lia | constructor]. }
  pose proof (refresh_does_not_extend "u1" 400 carol_types
                [(2500%Z, carol_types)] nobody_typing Hself eq_refl Hevs) as H.
  split; [reflexivity | exact H].
Defined.


(** ** The chat view *)

Lemma sendTypingIndicator_isTyping (env : Env) (now : Z) (typing : bool)
    (st : Composer) :
  isTyping (sendTypingIndicator env now typing st) = isTyping st
  /\ typingTimeout (sendTypingIndicator env now typing st) = typingTimeout st.
Proof.
  unfold sendTypingIndicator.
  destruct (open_chat env); [|auto].
  destruct (user env); [|auto].
  destruct (profile env); [|auto].
  destruct (typing && (now - lastTypingSignal st <? 500)%Z); auto.
Qed.

Lemma stopTyping_stops (env : Env) (now : Z) (st : Composer) :
  isTyping (stopTyping env now st) = false
  /\ typingTimeout (stopTyping env now st) = None.
Proof.
  unfold stopTyping.
  destruct (isTyping (set_typingTimeout None st)) eqn:E.
  - destruct (sendTypingIndicator_isTyping env now false
                (setIsTyping false (set_typingTimeout None st))) as [H1 H2].
    rewrite H1, H2. auto.
  - auto.
Qed.

Lemma sendMessage_guard_frame (env : Env) (c0 : string) (ty : MessageType)
    (md : Mood) (d r iso : string) (h : Hook) :
  open_chat env = None \/ user env = None ->
  sendMessage env c0 ty md d r iso h = h.
Proof.
  intros H. unfold sendMessage.
  destruct (open_chat env) as [c|]; [|reflexivity].
  destruct (user env) as [u|]; [|reflexivity].
  destruct H as [H|H]; discriminate H.
Qed.

(** X15.  One text is sent once.  When the input holds a text that is not blank
    and no send is under way, [handleSend] hands the trimmed text to
    [sendMessage] with kind [text] and the selected mood, empties the
    input, resets the mood, and stops the typing state; pressing send
    again, before or after the first call has finished, changes
    nothing. *)
Theorem handleSend_sends_once (menv tenv : Env) (now now' : Z)
    (d r iso d' r' iso' : string) (v : ChatView) :
  JS.truthy (JS.trim (newMessage v)) = true ->
  isSending v = false ->
  let v1 := handleSend menv tenv now d r iso v in
  chat_hook v1
  = sendMessage menv (JS.trim (newMessage v)) text (selectedMood v) d r iso
      (chat_hook v)
  /\ newMessage v1 = EmptyString
  /\ selectedMood v1 = neutral
  /\ isTyping (chat_composer v1) = false
  /\ typingTimeout (chat_composer v1) = None
  /\ handleSend menv tenv now' d' r' iso' v1 = v1
  /\ handleSend menv tenv now' d' r' iso' (handleSend_finally v1)
     = handleSend_finally v1.
Proof.
  intros Ht Hs v1.
  assert (E : v1
              = {| newMessage := EmptyString;
                   selectedMood := neutral;
                   showMoodSelector := false;
                   isSending := true;
                   chat_hook :=
                     sendMessage menv (JS.trim (newMessage v)) text
                       (selectedMood v) d r iso (chat_hook v);
                   chat_composer := stopTyping tenv now (chat_composer v) |}).
  { unfold v1, handleSend. rewrite Ht, Hs. reflexivity. }
  rewrite E. cbn [chat_hook newMessage selectedMood chat_composer].
  destruct (stopTyping_stops tenv now (chat_composer v)) as [S1 S2].
  repeat split; try assumption.
Qed.

Lemma handleSend_sends_once_witness :
  let v1 := handleSend env1 env_typing 10400 "1" "0.5"
              "2025-07-05T10:00:00.000Z" composing_hello in
  map (fun m => (content m, mood m)) (messages (chat_hook v1))
  = [("hello", happy)]
  /\ map (fun b => is_typing (snd b)) (broadcasts (chat_composer v1))
     = [true; false]
  /\ handleSend env1 env_typing 10500 "2" "0.7" "2025-07-05T10:00:01.000Z" v1
     = v1.
Proof.
  intros v1.
  destruct (handleSend_sends_once env1 env_typing 10400 10500 "1" "0.5"
              "2025-07-05T10:00:00.000Z" "2" "0.7" "2025-07-05T10:00:01.000Z"
              composing_hello eq_refl eq_refl) as [_ [_ [_ [_ [_ [H _]]]]]].
  split; [reflexivity | split; [reflexivity | exact H]].
Defined.

(** X16.  A text sent without a session is lost.  When the input holds a text
    and no send is under way, but the hook has no open conversation or no
    authenticated user yet, [handleSend] empties the input although
    [sendMessage] shows and sends nothing. *)
Theorem handleSend_without_session_discards (menv tenv : Env) (now : Z)
    (d r iso : string) (v : ChatView) :
  JS.truthy (JS.trim (newMessage v)) = true ->
  isSending v = false ->
  open_chat menv = None \/ user menv = None ->
  let v1 := handleSend menv tenv now d r iso v in
  newMessage v1 = EmptyString /\ chat_hook v1 = chat_hook v.
Proof.
  intros Ht Hs Hno v1. unfold v1, handleSend. rewrite Ht, Hs.
  cbn [negb orb newMessage chat_hook]. split; [reflexivity|].
  apply sendMessage_guard_frame. exact Hno.
Qed.

Lemma handleSend_without_session_discards_witness :
  let signed_out :=
    {| chatId := Some "c1"; user := None; profile := None |} in
  let v1 := handleSend signed_out env_typing 10400 "1" "0.5"
              "2025-07-05T10:00:00.000Z" composing_hello in
  newMessage composing_hello = " hello "
  /\ newMessage v1 = EmptyString
  /\ chat_hook v1 = chat_hook composing_hello.
Proof.
  intros signed_out v1.
  destruct (handleSend_without_session_discards signed_out env_typing 10400
              "1" "0.5"
              "2025-07-05T10:00:00.000Z" composing_hello eq_refl eq_refl
              (or_intror eq_refl)) as [H1 H2].
  split; [reflexivity | split; [exact H1 | exact H2]].
Defined.

(** ** How entries are rendered *)

Lemma retrying_marker_not_matched (c : string) :
  JS.startsWith ("🔄 Retrying: " ++ c) "Retrying:" = false.
Proof. reflexivity. Qed.

Lemma failed_id_not_optimistic (o : string) :
  JS.startsWith (failed_id o) "temp-" = false.
Proof. reflexivity. Qed.

(** X18.  An entry under retry is rendered as failed.  While [retryMessage]
    awaits its create request, the entry it has rewritten does not satisfy
    the test the view uses for the retrying state (its content starts with
    the arrows emoji, not with "Retrying:"); it is rendered as a failed
    entry that invites a tap, and, unless the retried content itself
    contains "Failed to send:", a tap on it does nothing. *)
Theorem retrying_entry_is_rendered_failed (env : Env) (c : string)
    (u : Auth.user) (a : RetryArgs) (h : Hook) (i : nat) (msg : Message) :
  open_chat env = Some c ->
  user env = Some u ->
  nth_error (messages h) i = Some msg ->
  id msg = failed_id (originalOptimisticId a) ->
  exists shown,
    nth_error (messages (retryMessage env a h)) i = Some shown
    /\ content shown = ("🔄 Retrying: " ++ retry_content a)%string
    /\ isRetrying shown = false
    /\ bubble shown = FailedTapToRetry
    /\ handleRetryMessage shown
       = if JS.includes (retry_content a) "Failed to send:"
         then Some (content shown, type shown, mood shown)
         else None.
Proof.
  intros Hc Hu Hi Hid.
  exists (set_content ("🔄 Retrying: " ++ retry_content a)%string msg).
  split; [|split; [reflexivity|]].
  - unfold retryMessage. rewrite Hc, Hu.
    cbn [messages emit setMessages]. unfold mark_retrying.
    rewrite nth_error_map, Hi. cbn [option_map].
    rewrite Hid, String.eqb_refl. reflexivity.
  - assert (R : isRetrying
                  (set_content ("🔄 Retrying: " ++ retry_content a)%string msg)
                = false) by apply retrying_marker_not_matched.
    split; [exact R|]. split.
    + unfold bubble, isOptimistic, isFailed. cbn [set_content id].
      rewrite Hid, failed_id_not_optimistic, startsWith_failed_id.
      reflexivity.
    + unfold handleRetryMessage. cbn [set_content id content type mood].
      rewrite Hid, startsWith_failed_id.
      change (JS.includes ("🔄 Retrying: " ++ retry_content a) "Failed to send:")
        with (JS.includes (retry_content a) "Failed to send:").
      destruct (JS.includes (retry_content a) "Failed to send:"); reflexivity.
Qed.

Lemma retrying_entry_is_rendered_failed_witness :
  map content (messages hello_retrying) = ["🔄 Retrying: hello"]
  /\ map bubble (messages hello_retrying) = [FailedTapToRetry]
  /\ map handleRetryMessage (messages hello_retrying) = [None].
Proof.
  epose proof (retrying_entry_is_rendered_failed env1 "c1" alice
                 hello_retry_args hello_failed 0 _ eq_refl eq_refl eq_refl
                 eq_refl) as [shown [H1 [H2 [_ [H4 H5]]]]].
  change (retryMessage env1 hello_retry_args hello_failed)
    with hello_retrying in H1.
  assert (E : messages hello_retrying = [shown]).
  { destruct (messages hello_retrying) as [|x [|y l]] eqn:M;
      try discriminate; simpl in H1; congruence. }
  rewrite E. simpl. rewrite H2, H4, H5. repeat split.
Defined.


(** ** Reactions *)

Lemma getReactionCounts_snoc (rs : list Reaction.t) (r : Reaction.t) :
  getReactionCounts (rs ++ [r])
  = bump (Reaction.reaction r) (getReactionCounts rs).
Proof. unfold getReactionCounts. rewrite fold_left_app. reflexivity. Qed.

Lemma bump_count_of (key k : string) (counts : list (string * nat)) :
  count_of k (bump key counts)
  = if k =? key
    then Some (match count_of k counts with Some n => n + 1 | None => 1 end)
    else count_of k counts.
Proof.
  unfold count_of. induction counts as [|[k' n] rest IH]; simpl.
  - rewrite String.eqb_sym. destruct (k =? key); reflexivity.
  - destruct (String.eqb_spec k' key) as [E|E]; simpl.
    + subst k'. rewrite (String.eqb_sym key k).
      destruct (k =? key); reflexivity.
    + destruct (String.eqb_spec k' k) as [E'|E']; simpl.
      * subst k'. apply String.eqb_neq in E. rewrite E. reflexivity.
      * exact IH.
Qed.

Lemma bump_keys (key k : string) (counts : list (string * nat)) :
  In k (map fst (bump key counts)) -> k = key \/ In k (map fst counts).
Proof.
  induction counts as [|[k' n] rest IH]; simpl.
  - intros [H|[]]. left. symmetry. exact H.
  - destruct (k' =? key); simpl.
    + intros [H|H]; right; [left | right]; assumption.
    + intros [H|H]; [right; left; exact H|].
      destruct (IH H) as [E|E]; [left | right; right]; assumption.
Qed.

Lemma bump_NoDup (key : string) (counts : list (string * nat)) :
  NoDup (map fst counts) -> NoDup (map fst (bump key counts)).
Proof.
  induction counts as [|[k' n] rest IH]; simpl; intros H.
  - constructor; [intros [] | constructor].
  - inversion H as [|x l Hx Hl]; subst.
    destruct (String.eqb_spec k' key) as [E|E]; simpl.
    + constructor; assumption.
    + constructor; [|apply IH; exact Hl].
      intros Hin. apply bump_keys in Hin as [Hk|Hk]; contradiction.
Qed.

Lemma bump_total (key : string) (counts : list (string * nat)) :
  total (bump key counts) = total counts + 1.
Proof.
  unfold total. induction counts as [|[k' n] rest IH]; simpl; [reflexivity|].
  destruct (k' =? key); simpl; [lia|]. rewrite IH. lia.
Qed.

Lemma occurrences_snoc (k : string) (rs : list Reaction.t) (r : Reaction.t) :
  occurrences k (rs ++ [r])
  = occurrences k rs + (if k =? Reaction.reaction r then 1 else 0).
Proof.
  unfold occurrences. rewrite filter_app, length_app. simpl.
  rewrite (String.eqb_sym (Reaction.reaction r) k).
  destruct (k =? Reaction.reaction r); reflexivity.
Qed.

(** X21.  The counts shown under a message.  Every emoji appears once among the
    keys of the counts; the count of an emoji is the number of reactions
    that carry it, and an emoji nobody used has no entry; the counts add up
    to the number of reactions. *)
Theorem reaction_counts_are_exact (reactions : list Reaction.t) (k : string) :
  let counts := getReactionCounts reactions in
  NoDup (map fst counts)
  /\ count_of k counts
     = (match occurrences k reactions with
        | O => None
        | S n => Some (S n)
        end)
  /\ total counts = length reactions.
Proof.
  induction reactions as [|r rs IH] using rev_ind.
  - simpl. repeat split. constructor.
  - destruct IH as [H1 [H2 H3]]. rewrite getReactionCounts_snoc.
    cbv zeta. split; [|split].
    + apply bump_NoDup. exact H1.
    + rewrite bump_count_of, occurrences_snoc.
      cbv zeta in H2. rewrite H2.
      destruct (k =? Reaction.reaction r);
        destruct (occurrences k rs) as [|n]; simpl;
        rewrite ?Nat.add_1_r, ?Nat.add_0_r; reflexivity.
    + rewrite bump_total, length_app. cbv zeta in H3. rewrite H3.
      reflexivity.
Qed.

Lemma own_reaction_found (user : option Auth.user) (reactions : list Reaction.t)
    (reaction : string) :
  highlighted user reactions reaction
  = match find (fun r => is_own user r && (Reaction.reaction r =? reaction))
            reactions with
    | Some _ => true
    | None => false
    end.
Proof.
  unfold highlighted, getUserReactions.
  induction reactions as [|r rs IH]; simpl; [reflexivity|].
  destruct (is_own user r); simpl; [|exact IH].
  destruct (Reaction.reaction r =? reaction); simpl; [reflexivity | exact IH].
Qed.

(** X22.  The highlight tells what a click does.  For a message and an
    authenticated user, a click on an emoji asks to delete the user's
    reaction exactly when the emoji is highlighted as the user's own, and
    to insert it otherwise; it never asks for anything when there is no
    message or no user, and then no emoji is highlighted for want of a
    user. *)
Theorem toggle_follows_highlight (messageId : option string)
    (user : option Auth.user) (reactions : list Reaction.t)
    (reaction : string) :
  toggleReaction messageId user reactions reaction
  = match given messageId, user with
    | Some m, Some u =>
        if highlighted user reactions reaction
        then Some (DeleteReaction m (Auth.id u) reaction)
        else Some (InsertReaction m (Auth.id u) reaction)
    | _, _ => None
    end
  /\ (user = None -> highlighted user reactions reaction = false).
Proof.
  split.
  - unfold toggleReaction, removeReaction, addReaction.
    rewrite own_reaction_found.
    destruct (find _ reactions); destruct (given messageId);
      destruct user; reflexivity.
  - intros E. subst user. unfold highlighted, getUserReactions.
    assert (F : filter (is_own None) reactions = []).
    { induction reactions as [|r rs IH]; simpl; [reflexivity | exact IH]. }
    rewrite F. reflexivity.
Qed.

Lemma toggle_follows_highlight_witness :
  toggleReaction (Some "m1") (Some alice) three_reactions "👍"
  = Some (DeleteReaction "m1" "u1" "👍")
  /\ toggleReaction (Some "m1") (Some alice) three_reactions "❤️"
     = Some (InsertReaction "m1" "u1" "❤️")
  /\ highlighted None three_reactions "👍" = false.
Proof.
  destruct (toggle_follows_highlight (Some "m1") (Some alice) three_reactions
              "👍") as [H1 _].
  destruct (toggle_follows_highlight (Some "m1") None three_reactions "👍")
    as [_ H3].
  split; [rewrite H1; reflexivity | split; [reflexivity | exact (H3 eq_refl)]].
Defined.


(** ** Typing follows the input *)

(** X17.  After every change of the input, the view holds the user as typing
    exactly when the input is not blank, with the idle timer due one second
    later in that case and no timer pending otherwise. *)
Theorem typing_follows_input (env : Env) (value : string) (now : Z)
    (v : ChatView) :
  let v1 := handleInputChange env value now v in
  newMessage v1 = value
  /\ isTyping (chat_composer v1) = JS.truthy (JS.trim value)
  /\ typingTimeout (chat_composer v1)
     = if JS.truthy (JS.trim value) then Some (now + 1000)%Z else None.
Proof.
  intros v1. unfold v1, handleInputChange. cbn [newMessage chat_composer].
  split; [reflexivity|].
  destruct (JS.truthy (JS.trim value)).
  - split; [|reflexivity]. unfold handleTyping.
    cbn [isTyping set_typingTimeout].
    destruct (isTyping (chat_composer v)) eqn:E; [exact E|].
    destruct (sendTypingIndicator_isTyping env now true
                (setIsTyping true (chat_composer v))) as [H _].
    rewrite H. reflexivity.
  - apply stopTyping_stops.
Qed.

(** ** A notification for a row already shown *)

(** X7.  When the list holds an entry with the identifier of the notified row
    and no provisional entry with the sender and content of the row, the
    notification leaves the hook as it is. *)
Theorem notification_of_shown_row_is_noop (data : MessageRow.t) (s : option User.t)
    (h : Hook) :
  has_id (MessageRow.id data) (messages h) = true ->
  forallb (fun msg => negb (is_optimistic_twin (with_sender data s) msg))
    (messages h) = true ->
  subscribeToMessages_insert data s h = h.
Proof.
  intros Hin Hk. unfold subscribeToMessages_insert, setMessages.
  rewrite (merge_insert_present_noop (with_sender data s) (messages h) Hin Hk).
  destruct h. reflexivity.
Qed.

Lemma notification_of_shown_row_is_noop_witness :
  subscribeToMessages_insert hello_row None hello_confirmed = hello_confirmed.
Proof.
  apply (notification_of_shown_row_is_noop hello_row None hello_confirmed);
    reflexivity.
Defined.


(** ** A query answered while a send is pending *)

(** X19.  The answer to a query replaces the list, provisional entries included.
    When a send has passed the guard of [sendMessage] and a query of
    [fetchMessages] is answered before its create request, with rows none
    of which carries the optimistic identifier, the list shows the rows of
    the answer only; the later answer to the create request, success or
    failure, finds no entry to replace and leaves the list as it is. *)
Theorem query_answer_drops_pending_send (env : Env) (c0 : string)
    (ty : MessageType) (md : Mood) (d r now c cq t1 t2 : string)
    (u : Auth.user) (data : list MessageRow.t) (senders : option (list User.t))
    (answer : Reply MessageRow.t) (h : Hook) :
  open_chat env = Some c ->
  user env = Some u ->
  JS.truthy (JS.trim c0) = true ->
  ~ In (temp_id d r) (map MessageRow.id data) ->
  let sent := sendMessage env c0 ty md d r now h in
  let loaded := fetchMessages_settled cq (Resolved data) senders sent in
  let answered :=
    sendMessage_settled u (profile env) (JS.trim c0) ty md (temp_id d r) t1 t2
      answer loaded in
  In (temp_id d r) (ids (messages sent))
  /\ messages loaded = chronological senders data
  /\ messages answered = chronological senders data.
Proof.
  intros Hc Hu Ht Hfresh sent loaded answered.
  assert (L : messages loaded = chronological senders data) by reflexivity.
  assert (A : ~ In (temp_id d r) (ids (messages loaded))).
  { rewrite L, chronological_rev. unfold ids, messagesWithSenders.
    rewrite <- map_rev, map_map. intros H.
    apply in_map_iff in H as [row [E Hin]]. simpl in E.
    apply Hfresh. rewrite <- E. apply in_map. apply in_rev. exact Hin. }
  split; [|split; [exact L|]].
  - unfold sent. rewrite (view_submit env c0 ty md d r now c u h Hc Hu Ht).
    unfold ids. rewrite map_app. apply in_or_app. right. left. reflexivity.
  - unfold answered. destruct answer as [row|e].
    + cbn [sendMessage_settled messages setMessages].
      rewrite (replace_by_id_absent _ _ _ A). exact L.
    + rewrite view_rejected, (mark_failed_absent _ _ _ A). exact L.
Qed.

Lemma query_answer_drops_pending_send_witness :
  let loaded :=
    fetchMessages_settled "c1"
      (Resolved (Store.select_messages two_chats "A" 50)) None hello_sent in
  ids (messages hello_sent) = ["temp-1-0.5"]
  /\ ids (messages loaded) = ["a1"; "a2"]
  /\ ids (messages
            (sendMessage_settled alice None "hello" text neutral "temp-1-0.5"
               "t1" "t2" (Resolved hello_row) loaded)) = ["a1"; "a2"].
Proof.
  intros loaded.
  assert (Hfresh : ~ In (temp_id "1" "0.5")
                     (map MessageRow.id (Store.select_messages two_chats "A" 50))).
  { simpl. intros [H|[H|[]]]; discriminate H. }
  destruct (query_answer_drops_pending_send env1 "hello" text neutral "1" "0.5"
              "2025-07-05T10:00:00.000Z" "c1" "c1" "t1" "t2" alice
              (Store.select_messages two_chats "A" 50) None
              (Resolved hello_row) empty_hook eq_refl eq_refl eq_refl Hfresh)
    as [_ [_ H3]].
  split; [reflexivity | split; [reflexivity|]].
  change (messages
            (sendMessage_settled alice None "hello" text neutral "temp-1-0.5"
               "t1" "t2" (Resolved hello_row) loaded))
    with (messages
            (sendMessage_settled alice (profile env1) (JS.trim "hello") text
               neutral (temp_id "1" "0.5") "t1" "t2" (Resolved hello_row)
               (fetchMessages_settled "c1"
                  (Resolved (Store.select_messages two_chats "A" 50)) None
                  (sendMessage env1 "hello" text neutral "1" "0.5"
                     "2025-07-05T10:00:00.000Z" empty_hook)))).
  rewrite H3. reflexivity.
Defined.

(** ** A tap on an entry *)

